(** * Title Generator: a shallow embedding of [src/main.ts]

    The plugin renders a prompt template, asks a provider for a title,
    sanitises the answer and renames the note.  JavaScript strings are
    sequences of UTF-16 code units; they are modelled as [list N], one
    number per code unit, so that the curly quotes and the non-ASCII white
    space of the regular expressions are exactly the characters the source
    names. *)

From Stdlib Require Import String Ascii DecimalString.
From Stdlib Require Import List NArith Bool Arith Lia QArith.
From Equations Require Import Equations.
Import ListNotations.

Local Open Scope N_scope.
Local Open Scope list_scope.

(** ** Strings *)

Definition str := list N.

(** An ASCII literal as a JavaScript string. *)
Definition js (s : string) : str := map N_of_ascii (list_ascii_of_string s).

(** The class [\s] of a JavaScript regular expression, which is also the set
    [String.prototype.trim] removes: WhiteSpace and LineTerminator. *)
Definition is_ws (c : N) : bool :=
  ((9 <=? c) && (c <=? 13)) || (c =? 32) || (c =? 160) || (c =? 5760)
  || ((8192 <=? c) && (c <=? 8202)) || (c =? 8232) || (c =? 8233)
  || (c =? 8239) || (c =? 8287) || (c =? 12288) || (c =? 65279).

Fixpoint dropWhile (p : N -> bool) (s : str) : str :=
  match s with
  | [] => []
  | c :: tl => if p c then dropWhile p tl else s
  end.

Definition dropWhileEnd (p : N -> bool) (s : str) : str :=
  rev (dropWhile p (rev s)).

(** [String.prototype.trim]. *)
Definition trim (s : str) : str := dropWhileEnd is_ws (dropWhile is_ws s).

(** ** Title sanitizer *)

(** The quotation marks of the class in [stripSurroundingQuotes]: the
    straight double and single quote and the curly U+201C, U+201D, U+2018
    and U+2019. *)
Definition is_quote (c : N) : bool :=
  (c =? 34) || (c =? 39) || (c =? 8220) || (c =? 8221) || (c =? 8216)
  || (c =? 8217).

(** The whole class: white space or a quotation mark. *)
Definition is_strip_class (c : N) : bool := is_ws c || is_quote c.

(** [s.replace(/^[cls]+|[cls]+$/g, '')] for a character class [cls].  The
    first alternative can only match at index 0 and takes the whole leading
    run.  From there on only the second alternative can match: it does at
    the first position from which only class characters remain, and the match
    runs to the end of the string. *)
Fixpoint strip_trailing (cls : N -> bool) (s : str) : str :=
  match s with
  | [] => []
  | c :: tl => if forallb cls s then [] else c :: strip_trailing cls tl
  end.

Definition strip_ends (cls : N -> bool) (s : str) : str :=
  strip_trailing cls (dropWhile cls s).

Definition stripSurroundingQuotes (s : str) : str :=
  strip_ends is_strip_class s.

(** The characters replaced by [removeInvalidFileNameChars]: less-than,
    greater-than, colon, double quote, slash, backslash, bar, question mark
    and star. *)
Definition is_invalid_char (c : N) : bool :=
  (c =? 60) || (c =? 62) || (c =? 58) || (c =? 34) || (c =? 47) || (c =? 92)
  || (c =? 124) || (c =? 63) || (c =? 42).

Definition replace_invalid (c : N) : N := if is_invalid_char c then 32 else c.

(** [s.replace(/[cls]+/g, r)] for a class [cls] and a single character
    [r]: [in_run] tells that the previous character was part of the run
    whose replacement was already written. *)
Fixpoint collapse_runs (cls : N -> bool) (r : N) (in_run : bool) (s : str) : str :=
  match s with
  | [] => []
  | c :: tl =>
      if cls c
      then if in_run
           then collapse_runs cls r true tl
           else r :: collapse_runs cls r true tl
      else c :: collapse_runs cls r false tl
  end.

(** [replace(/\s+/g, ' ')]. *)
Definition collapse_ws (s : str) : str := collapse_runs is_ws 32 false s.

Definition removeInvalidFileNameChars (s : str) : str :=
  trim (collapse_ws (map replace_invalid s)).

(** Lines 368-369 of [generateTitle]: the two steps applied to the raw
    provider output. *)
Definition sanitize (raw : str) : str :=
  removeInvalidFileNameChars (stripSurroundingQuotes raw).

(** ** Template renderer *)

(** Longest prefix of [s] whose characters satisfy [p]; a greedy [\s*]. *)
Fixpoint takeWhile (p : N -> bool) (s : str) : str :=
  match s with
  | [] => []
  | c :: tl => if p c then c :: takeWhile p tl else []
  end.

(** Under the [i] flag a pattern letter matches its two cases: without the
    [u] flag no other code unit canonicalises to an ASCII letter. *)
Definition eq_ci (letter c : N) : bool := (c =? letter) || (c =? letter - 32).

(** The literal word of the pattern, matched letter by letter; the matched
    text is returned as it stands in the input. *)
Fixpoint match_word (w s : str) : option str :=
  match w with
  | [] => Some []
  | l :: w' =>
      match s with
      | [] => None
      | c :: tl =>
          if eq_ci l c
          then match match_word w' tl with
               | Some m => Some (c :: m)
               | None => None
               end
          else None
      end
  end.

Definition content_word : str := js "content".

(** Two equal delimiter characters at the head of [s]. *)
Definition match_pair (d : N) (s : str) : bool :=
  match s with
  | a :: b :: _ => (a =? d) && (b =? d)
  | _ => false
  end.

(** [/\{\{\s*content\s*\}\}/i] tried at the head of [s]; the result is the
    matched text.  Each [\s*] is greedy, and as the pattern goes on with a
    character that is no white space, backtracking into it never helps: the
    match at a position is unique. *)
Definition match_placeholder (s : str) : option str :=
  if match_pair 123 s then
    let s1 := skipn 2 s in
    let w1 := takeWhile is_ws s1 in
    let s2 := dropWhile is_ws s1 in
    match match_word content_word s2 with
    | Some word =>
        let s3 := skipn (length word) s2 in
        let w2 := takeWhile is_ws s3 in
        let s4 := dropWhile is_ws s3 in
        if match_pair 125 s4
        then Some ([123; 123] ++ w1 ++ word ++ w2 ++ [125; 125])
        else None
    | None => None
    end
  else None.

(** GetSubstitution of the language specification, for a pattern without
    capture groups: [$$] is a dollar, [$&] the matched text, [$`] the input
    before the match and [$'] the input after it.  A dollar followed by
    digits or by [<] refers to a group the pattern does not have and is
    copied as it is, like a dollar before anything else. *)
Fixpoint GetSubstitution (matched before after template : str) : str :=
  match template with
  | [] => []
  | c :: tl =>
      if c =? 36 then
        match tl with
        | [] => [c]
        | d :: tl' =>
            if d =? 36 then 36 :: GetSubstitution matched before after tl'
            else if d =? 96 then before ++ GetSubstitution matched before after tl'
            else if d =? 38 then matched ++ GetSubstitution matched before after tl'
            else if d =? 39 then after ++ GetSubstitution matched before after tl'
            else c :: GetSubstitution matched before after tl
        end
      else c :: GetSubstitution matched before after tl
  end.

(** [template.replace(/\{\{\s*content\s*\}\}/gi, replacement)].  The global
    replace runs the pattern over the input from left to right; [before] is
    the input already passed.  At a match the substitution is written and
    the scan resumes behind the matched text (a match holds at least the four
    delimiter characters, so this is [pred (length m)] characters into the
    tail); elsewhere the character is copied. *)
Equations? replace_from (replacement before s : str) : str by wf (length s) lt :=
  replace_from replacement before [] := [];
  replace_from replacement before (c :: tl) with match_placeholder (c :: tl) := {
    | Some m :=
        GetSubstitution m before (skipn (length m) (c :: tl)) replacement
          ++ replace_from replacement (before ++ m) (skipn (pred (length m)) tl);
    | None := c :: replace_from replacement (before ++ [c]) tl }.
Proof.
  all: simpl; try rewrite length_skipn; lia.
Qed.

Definition replace_placeholder (template replacement : str) : str :=
  replace_from replacement [] template.

(** Some position of [s] starts a placeholder. *)
Fixpoint contains_placeholder (s : str) : bool :=
  match s with
  | [] => false
  | _ :: tl =>
      match match_placeholder s with
      | Some _ => true
      | None => contains_placeholder tl
      end
  end.

(** The text of a template between its placeholders, in order: what a
    verbatim substitution leaves in place.  A template with [n] placeholders
    has [n + 1] segments. *)
Definition cons_head (c : N) (segs : list str) : list str :=
  match segs with
  | [] => [[c]]
  | seg :: more => (c :: seg) :: more
  end.

Equations? segments (s : str) : list str by wf (length s) lt :=
  segments [] := [[]];
  segments (c :: tl) with match_placeholder (c :: tl) := {
    | Some m := [] :: segments (skipn (pred (length m)) tl);
    | None := cons_head c (segments tl) }.
Proof.
  all: simpl; try rewrite length_skipn; lia.
Qed.

(** The placeholders of a template, in order, as they stand in it. *)
Equations? placeholders (s : str) : list str by wf (length s) lt :=
  placeholders [] := [];
  placeholders (c :: tl) with match_placeholder (c :: tl) := {
    | Some m := m :: placeholders (skipn (pred (length m)) tl);
    | None := placeholders tl }.
Proof.
  all: simpl; try rewrite length_skipn; lia.
Qed.

(** Segments and the texts for the gaps between them, in turn. *)
Fixpoint weave (segs fills : list str) : str :=
  match segs with
  | [] => []
  | seg :: more =>
      match fills with
      | [] => seg ++ weave more []
      | fill :: fills' => seg ++ fill ++ weave more fills'
      end
  end.

(** The segments put together again with [filler] at every gap. *)
Fixpoint join (filler : str) (segs : list str) : str :=
  match segs with
  | [] => []
  | [seg] => seg
  | seg :: more => seg ++ filler ++ join filler more
  end.

(** ** Settings *)

Inductive Provider := openai | fireworks.

Record TitleGeneratorSettings := {
  provider : Provider;
  openAiApiKey : str;
  openAiModel : str;
  fireworksApiKey : str;
  fireworksModel : str;
  customPrompt : str
}.

Definition nl : str := [10].

Definition DEFAULT_PROMPT : str :=
  js "Write a concise, descriptive Title Case note title based on the content below."
  ++ nl ++ js "Rules:"
  ++ nl ++ js "- Aim for 4" ++ [8211] ++ js "8 words"
  ++ nl ++ js "- No quotes or trailing punctuation"
  ++ nl ++ js "- No emojis"
  ++ nl ++ js "- Keep it filename-safe"
  ++ nl ++ nl ++ js "Content:"
  ++ nl ++ js "{{content}}"
  ++ nl ++ nl ++ js "Return only the title.".

Definition DEFAULT_MODEL : str := js "gpt-5-nano-2025-08-07".

Definition DEFAULT_SETTINGS : TitleGeneratorSettings := {|
  provider := openai;
  openAiApiKey := [];
  openAiModel := DEFAULT_MODEL;
  fireworksApiKey := [];
  fireworksModel := [];
  customPrompt := DEFAULT_PROMPT
|}.

(** [a || b] on strings: the empty string is the only falsy one. *)
Definition or_else (a b : str) : str :=
  match a with
  | [] => b
  | _ => a
  end.

(** [this.settings.customPrompt?.trim() || DEFAULT_PROMPT]. *)
Definition prompt_template (settings : TitleGeneratorSettings) : str :=
  or_else (trim (customPrompt settings)) DEFAULT_PROMPT.

Definition renderPrompt (settings : TitleGeneratorSettings) (content : str) : str :=
  let tmpl := prompt_template settings in
  replace_placeholder tmpl content.

(** ** Values and errors of the run time *)

(** What [JSON.parse] can return.  The fields of [JObj] are the own
    properties of the object. *)
#[local] Unset Elimination Schemes.
Inductive json :=
| JNull
| JBool (b : bool)
| JNum (q : Q)
| JStr (s : str)
| JArr (items : list json)
| JObj (fields : list (str * json)).
#[local] Set Elimination Schemes.

(** The ways the engine itself fails in the code at hand. *)
Inductive type_error :=
| ReadOfNull (property : str)
| NotAFunction (property : str)
| NoPrimitiveValue.

Inductive js_error :=
| Error (message : str)
| TypeError (why : type_error)
| Rejection (rendering : str).

Inductive Outcome (A : Type) :=
| Return (a : A)
| Throw (e : js_error).

Arguments Return {A} a.
Arguments Throw {A} e.

Definition obind {A B : Type} (o : Outcome A) (k : A -> Outcome B) : Outcome B :=
  match o with
  | Return a => k a
  | Throw e => Throw e
  end.

Definition str_eqb (a b : str) : bool :=
  if list_eq_dec N.eq_dec a b then true else false.

Fixpoint own_property (fields : list (str * json)) (key : str) : option json :=
  match fields with
  | [] => None
  | (k, v) :: more => if str_eqb k key then Some v else own_property more key
  end.

(** [v.key] for a key that no built-in prototype defines ([output_text],
    [output], [content], [text]); [None] is [undefined]. *)
Definition get_named (v : json) (key : str) : Outcome (option json) :=
  match v with
  | JNull => Throw (TypeError (ReadOfNull key))
  | JObj fields => Return (own_property fields key)
  | _ => Return None
  end.

(** [v[0]]. *)
Definition get_index0 (v : json) : Outcome (option json) :=
  match v with
  | JNull => Throw (TypeError (ReadOfNull (js "0")))
  | JStr (c :: _) => Return (Some (JStr [c]))
  | JArr (x :: _) => Return (Some x)
  | JObj fields => Return (own_property fields (js "0"))
  | _ => Return None
  end.

(** [x ?? fallback]. *)
Definition nullish_or (x : option json) (fallback : json) : json :=
  match x with
  | None | Some JNull => fallback
  | Some v => v
  end.

Definition bool_string (b : bool) : str := if b then js "true" else js "false".

Section Conversions.

(** Number::toString, left to the engine. *)
Variable numberToString : Q -> str.

(** ToString of an array element inside [Array.prototype.join]: [null]
    gives the empty string, a nested array is joined in turn, and a plain
    object gives its tag unless an own [toString] property, which parsed
    data cannot make callable, hides the inherited method. *)
Fixpoint element_string (v : json) : Outcome str :=
  match v with
  | JNull => Return []
  | JBool b => Return (bool_string b)
  | JNum q => Return (numberToString q)
  | JStr s => Return s
  | JArr items =>
      (fix join_items (l : list json) : Outcome str :=
         match l with
         | [] => Return []
         | [x] => element_string x
         | x :: more =>
             obind (element_string x) (fun a =>
             obind (join_items more) (fun b =>
             Return (a ++ [44] ++ b)))
         end) items
  | JObj fields =>
      match own_property fields (js "toString") with
      | Some _ => Throw (TypeError NoPrimitiveValue)
      | None => Return (js "[object Object]")
      end
  end.

(** The method call [v.toString()]. *)
Definition call_toString (v : json) : Outcome str :=
  match v with
  | JNull => Throw (TypeError (ReadOfNull (js "toString")))
  | JObj fields =>
      match own_property fields (js "toString") with
      | Some _ => Throw (TypeError (NotAFunction (js "toString")))
      | None => Return (js "[object Object]")
      end
  | _ => element_string v
  end.

(** [last?.content?.[0]?.text?.toString()?.trim() ?? '']. *)
Definition dig_last (last : json) : Outcome str :=
  match last with
  | JNull => Return []
  | _ =>
      obind (get_named last (js "content")) (fun content =>
      match content with
      | None | Some JNull => Return []
      | Some c =>
          obind (get_index0 c) (fun first =>
          match first with
          | None | Some JNull => Return []
          | Some e =>
              obind (get_named e (js "text")) (fun text =>
              match text with
              | None | Some JNull => Return []
              | Some t => obind (call_toString t) (fun s => Return (trim s))
              end)
          end)
      end)
  end.

(** Lines 338-348 of [callFireworks]: the text taken from the parsed
    body.  Only the inner block is guarded by [try]. *)
Definition extract_output (data : json) : Outcome str :=
  obind (get_named data (js "output_text")) (fun output_text =>
  obind (call_toString (nullish_or output_text (JStr []))) (fun s =>
  let out := trim s in
  match out with
  | _ :: _ => Return out
  | [] =>
      obind (get_named data (js "output")) (fun output =>
      match output with
      | Some (JArr (x :: more)) =>
          match dig_last (last (x :: more) JNull) with
          | Return s' => Return s'
          | Throw _ => Return out
          end
      | _ => Return out
      end)
  end)).

End Conversions.

(** ** Requests and responses *)

(** [openai.completions.create] and [openai.chat.completions.create]. *)
Record CompletionRequest := {
  cq_model : str;
  cq_prompt : str;
  cq_max_tokens : N;
  cq_temperature : Q
}.

Record ChatMessage := {
  msg_role : str;
  msg_content : str
}.

Record ChatRequest := {
  ch_model : str;
  ch_messages : list ChatMessage;
  ch_temperature : Q;
  ch_max_completion_tokens : N;
  ch_reasoning_effort : str;
  ch_verbosity : str;
  ch_n : N
}.

(** The answers, with every part the code reads through [?.] optional. *)
Record CompletionChoice := {
  cc_text : option str
}.

Record CompletionResponse := {
  cr_choices : option (list CompletionChoice)
}.

Record ChatChoiceMessage := {
  cm_content : option str
}.

Record ChatChoice := {
  hc_message : option ChatChoiceMessage
}.

Record ChatResponse := {
  hr_choices : option (list ChatChoice)
}.

(** The argument of [fetch]; [body] is the object given to
    [JSON.stringify]. *)
Record HttpRequest := {
  url : str;
  method : str;
  headers : list (str * str);
  body : json
}.

(** The answer of [fetch]: [res.ok], [res.status], and what awaiting
    [res.text()] and [res.json()] gives. *)
Record HttpResponse := {
  res_ok : bool;
  res_status : N;
  res_text : Outcome str;
  res_json : Outcome json
}.

Record TFile := { path : str }.

(** ** The world around the plugin *)

Inductive event :=
| CachedRead (file : TFile)
| CompletionsCreate (apiKey : str) (request : CompletionRequest)
| ChatCreate (apiKey : str) (request : ChatRequest)
| Fetch (request : HttpRequest)
| RenameFile (file : TFile) (newPath : str)
| ConsoleError (err : js_error)
| Notice (message : str).

(** [log] holds the calls made to the outside, oldest first; [statusBar]
    the items now in the status bar, each with its identity and text;
    [openaiClient] the API key held by [this.openai], if the handle was
    made. *)
Record World := {
  log : list event;
  statusBar : list (nat * str);
  openaiClient : option str
}.

(** What the plugin does not own: the engine, the host application and the
    network.  An answer can depend on everything that happened before. *)
Record Platform := {
  toLowerCase : str -> str;
  normalizeNFC : str -> str;
  numberToString : Q -> str;
  engineMessage : type_error -> str;
  cachedRead : list event -> TFile -> Outcome str;
  completionsCreate : list event -> str -> CompletionRequest -> Outcome CompletionResponse;
  chatCreate : list event -> str -> ChatRequest -> Outcome ChatResponse;
  fetch : list event -> HttpRequest -> Outcome HttpResponse;
  renameFile : list event -> TFile -> str -> Outcome unit
}.

(** A computation changes the world and returns or throws; what it did
    before it threw stays done. *)
Definition M (A : Type) : Type := World -> Outcome A * World.

Definition ret {A : Type} (a : A) : M A := fun w => (Return a, w).

Definition throw {A : Type} (e : js_error) : M A := fun w => (Throw e, w).

Definition bind {A B : Type} (m : M A) (k : A -> M B) : M B :=
  fun w =>
    match m w with
    | (Return a, w') => k a w'
    | (Throw e, w') => (Throw e, w')
    end.

Declare Scope m_scope.
Delimit Scope m_scope with m.
Notation "x <- m ;; k" := (bind m (fun x => k))
  (at level 61, m at next level, right associativity) : m_scope.
Notation "m ;; k" := (bind m (fun _ => k))
  (at level 61, right associativity) : m_scope.
Local Open Scope m_scope.

(** [try { body } catch (err) { handler }]. *)
Definition try_catch {A : Type} (body : M A) (handler : js_error -> M A) : M A :=
  fun w =>
    match body w with
    | (Return a, w') => (Return a, w')
    | (Throw e, w') => handler e w'
    end.

(** [try { body } finally { finalizer }]: the finalizer runs on both ways
    out, and the outcome of the body stands unless the finalizer throws. *)
Definition try_finally {A : Type} (body : M A) (finalizer : M unit) : M A :=
  fun w =>
    match body w with
    | (r, w') =>
        match finalizer w' with
        | (Return _, w'') => (r, w'')
        | (Throw e, w'') => (Throw e, w'')
        end
    end.

(** An awaited value whose outcome is already known. *)
Definition await {A : Type} (o : Outcome A) : M A := fun w => (o, w).

(** A call to the outside: it is written to the log and answered from the
    log as it was before the call. *)
Definition external {A : Type} (ev : event) (answer : list event -> Outcome A) : M A :=
  fun w =>
    (answer (log w),
     {| log := log w ++ [ev]; statusBar := statusBar w; openaiClient := openaiClient w |}).

(** Calls that cannot fail: [console.error] and [new Notice]. *)
Definition emit (ev : event) : M unit :=
  external ev (fun _ => Return tt).

(** [this.addStatusBarItem()]: a new element, distinct from those in the
    bar, put at its end. *)
Definition addStatusBarItem : M nat :=
  fun w =>
    let item := S (list_max (map fst (statusBar w))) in
    (Return item,
     {| log := log w; statusBar := statusBar w ++ [(item, [])]; openaiClient := openaiClient w |}).

(** [item.createEl('span', { text })]. *)
Definition createEl (item : nat) (content : str) : M unit :=
  fun w =>
    (Return tt,
     {| log := log w;
        statusBar := map (fun it => if Nat.eqb (fst it) item then (fst it, snd it ++ content) else it)
                         (statusBar w);
        openaiClient := openaiClient w |}).

(** [item.remove()]. *)
Definition remove (item : nat) : M unit :=
  fun w =>
    (Return tt,
     {| log := log w;
        statusBar := filter (fun it => negb (Nat.eqb (fst it) item)) (statusBar w);
        openaiClient := openaiClient w |}).

(** ** Paths *)

Record ParsedPath := {
  root : str;
  dir : str;
  base : str;
  ext : str;
  name : str
}.

Definition is_slash (c : N) : bool := c =? 47.

Definition is_dot (c : N) : bool := c =? 46.

Definition takeWhileEnd (p : N -> bool) (s : str) : str :=
  rev (takeWhile p (rev s)).

(** The name and the extension of a last path component.  The extension
    starts at the last dot, unless there is none, the dot is the first
    character, or the component is the parent directory [..]. *)
Definition split_ext (b : str) : str * str :=
  let tail := takeWhileEnd (fun c => negb (is_dot c)) b in
  if Nat.eqb (length tail) (length b) then (b, [])
  else
    let stem := firstn (length b - length tail - 1) b in
    match stem with
    | [] => (b, [])
    | _ => if str_eqb b [46; 46] then (b, []) else (stem, skipn (length stem) b)
    end.

(** [path.parse] of path-browserify, which follows the POSIX rules of
    Node.js.  The scan runs from the end of the path down to index 0, or 1
    for an absolute path: trailing slashes are passed over, the last
    component ends at the last other character and starts behind the slash
    before it, and [dir] is what stands in front of that slash. *)
Definition path_parse (p : str) : ParsedPath :=
  match p with
  | [] => {| root := []; dir := []; base := []; ext := []; name := [] |}
  | first :: rest =>
      let isAbsolute := is_slash first in
      let scanned := if isAbsolute then rest else p in
      let upto_end := dropWhileEnd is_slash scanned in
      let b := takeWhileEnd (fun c => negb (is_slash c)) upto_end in
      let front := firstn (length upto_end - length b) upto_end in
      let r := if isAbsolute then [first] else [] in
      let d :=
        match front with
        | [] => r
        | _ => r ++ removelast front
        end in
      {| root := r; dir := d; base := b; ext := snd (split_ext b); name := fst (split_ext b) |}
  end.

Definition is_separator (c : N) : bool := (c =? 47) || (c =? 92).

Definition replace_nbsp (c : N) : N :=
  if (c =? 160) || (c =? 8239) then 32 else c.

Section Host.

Variable P : Platform.

(** [normalizePath] of the host application, as its API reference
    describes it: runs of slashes and backslashes become one slash,
    slashes at both ends are removed, the empty path becomes the root, the
    two non-breaking spaces become spaces, and the result is put in
    Unicode normal form C. *)
Definition normalizePath (p : str) : str :=
  let cleaned := strip_ends is_slash (collapse_runs is_separator 47 false p) in
  let rooted := match cleaned with [] => [47] | _ => cleaned end in
  normalizeNFC P (map replace_nbsp rooted).

(** ** Provider clients *)

Fixpoint startsWith (prefix s : str) : bool :=
  match prefix with
  | [] => true
  | a :: prefix' =>
      match s with
      | [] => false
      | b :: s' => (a =? b) && startsWith prefix' s'
      end
  end.

Fixpoint includes (needle s : str) : bool :=
  startsWith needle s ||
  match s with
  | [] => false
  | _ :: tl => includes needle tl
  end.

Definition useCompletionsEndpoint (model : str) : bool :=
  match model with
  | [] => false
  | _ =>
      let lower := toLowerCase P model in
      includes (js "instruct") lower
      || startsWith (js "text-") lower
      || includes (js "davinci") lower
      || includes (js "curie") lower
      || includes (js "babbage") lower
      || includes (js "ada") lower
  end.

Variable settings : TitleGeneratorSettings.

(** [if (!this.openai) this.openai = new OpenAI({ apiKey, ... })]; the
    result is the key the handle holds. *)
Definition ensureClient : M str :=
  fun w =>
    match openaiClient w with
    | Some key => (Return key, w)
    | None =>
        (Return (openAiApiKey settings),
         {| log := log w; statusBar := statusBar w;
            openaiClient := Some (openAiApiKey settings) |})
    end.

Definition option_or_empty (o : option str) : str :=
  match o with
  | Some s => s
  | None => []
  end.

(** [response.choices?.[0]?.text ?? '']. *)
Definition completion_text (response : CompletionResponse) : str :=
  match cr_choices response with
  | Some (choice :: _) => option_or_empty (cc_text choice)
  | _ => []
  end.

(** [response.choices?.[0]?.message?.content ?? '']. *)
Definition chat_text (response : ChatResponse) : str :=
  match hr_choices response with
  | Some (choice :: _) =>
      match hc_message choice with
      | Some message => option_or_empty (cm_content message)
      | None => []
      end
  | _ => []
  end.

Definition openai_model : str := or_else (trim (openAiModel settings)) DEFAULT_MODEL.

Definition completion_request (prompt : str) : CompletionRequest :=
  {| cq_model := openai_model; cq_prompt := prompt; cq_max_tokens := 50;
     cq_temperature := (6 # 10)%Q |}.

Definition chat_request (prompt : str) : ChatRequest :=
  {| ch_model := openai_model;
     ch_messages := [ {| msg_role := js "user"; msg_content := prompt |} ];
     ch_temperature := (6 # 10)%Q;
     ch_max_completion_tokens := 50;
     ch_reasoning_effort := js "minimal";
     ch_verbosity := js "low";
     ch_n := 1 |}.

Definition callOpenAI (prompt : str) : M str :=
  key <- ensureClient ;;
  if useCompletionsEndpoint openai_model then
    response <- external (CompletionsCreate key (completion_request prompt))
                  (fun history => completionsCreate P history key (completion_request prompt)) ;;
    ret (trim (completion_text response))
  else
    response <- external (ChatCreate key (chat_request prompt))
                  (fun history => chatCreate P history key (chat_request prompt)) ;;
    ret (trim (chat_text response)).

Definition FIREWORKS_BASE_URL : str := js "https://api.fireworks.ai/inference/v1".

(** A number in a template literal. *)
Definition decimal (n : N) : str := js (NilEmpty.string_of_uint (N.to_uint n)).

Definition fireworks_body (model prompt : str) : json :=
  JObj [ (js "model", JStr model);
         (js "input", JStr prompt);
         (js "max_output_tokens", JNum (50 # 1));
         (js "temperature", JNum (6 # 10));
         (js "store", JBool false) ].

Definition fireworks_request (model apiKey prompt : str) : HttpRequest :=
  {| url := FIREWORKS_BASE_URL ++ js "/responses";
     method := js "POST";
     headers := [ (js "Content-Type", js "application/json");
                  (js "Authorization", js "Bearer " ++ apiKey) ];
     body := fireworks_body model prompt |}.

Definition callFireworks (prompt : str) : M str :=
  match trim (fireworksModel settings) with
  | [] => throw (Error (js "Fireworks model is required."))
  | model =>
      match trim (fireworksApiKey settings) with
      | [] => throw (Error (js "Fireworks API key is required."))
      | apiKey =>
          res <- external (Fetch (fireworks_request model apiKey prompt))
                   (fun history => fetch P history (fireworks_request model apiKey prompt)) ;;
          if negb (res_ok res) then
            failure <- try_catch (await (res_text res)) (fun _ => ret []) ;;
            throw (Error (js "Fireworks API error " ++ decimal (res_status res)
                            ++ js ": " ++ failure))
          else
            data <- await (res_json res) ;;
            await (extract_output (numberToString P) data)
      end
  end.

(** ** Orchestrator *)

(** The text of an error inside a template literal. *)
Definition prefixed (kind message : str) : str :=
  match message with
  | [] => kind
  | _ => kind ++ js ": " ++ message
  end.

Definition error_string (err : js_error) : str :=
  match err with
  | Error message => prefixed (js "Error") message
  | TypeError why => prefixed (js "TypeError") (engineMessage P why)
  | Rejection rendering => rendering
  end.

Definition EMPTY_TITLE : js_error := Error (js "Model returned an empty title.").

Definition MISSING_KEY : js_error :=
  Error (js "Please set your OpenAI API key in the settings.").

(** The rename target of lines 375-378. *)
Definition rename_target (file : TFile) (title : str) : str :=
  let currentPath := path_parse (path file) in
  normalizePath (dir currentPath ++ js "/" ++ title ++ ext currentPath).

(** The block guarded by [try] in [generateTitle]. *)
Definition generateTitle_try (file : TFile) (content : str) : M unit :=
  let prompt := renderPrompt settings content in
  raw <- match provider settings with
         | fireworks => callFireworks prompt
         | openai =>
             match openAiApiKey settings with
             | [] => throw MISSING_KEY
             | _ => callOpenAI prompt
             end
         end ;;
  let title := removeInvalidFileNameChars (stripSurroundingQuotes raw) in
  match title with
  | [] => throw EMPTY_TITLE
  | _ =>
      external (RenameFile file (rename_target file title))
        (fun history => renameFile P history file (rename_target file title))
  end.

Definition notice_text (err : js_error) : str :=
  js "Unable to generate title:" ++ nl ++ nl ++ error_string err.

Definition generateTitle_catch (err : js_error) : M unit :=
  emit (ConsoleError err) ;;
  emit (Notice (notice_text err)).

Definition generateTitle (file : TFile) (content : str) : M unit :=
  loadingStatus <- addStatusBarItem ;;
  createEl loadingStatus (js "Generating title...") ;;
  try_finally
    (try_catch (generateTitle_try file content) generateTitle_catch)
    (remove loadingStatus).

Definition generateTitleFromFile (file : TFile) : M unit :=
  content <- external (CachedRead file) (fun history => cachedRead P history file) ;;
  generateTitle file content.

(** ** Bulk dispatch *)

(** [pMap(items, mapper, { concurrency: 1 })] of the p-map package: with
    one slot the mapper is started on the next item only when the call
    before has settled, and as [stopOnError] keeps its default the first
    rejection rejects the whole and no further item is started. *)
Fixpoint pMap {A B : Type} (items : list A) (mapper : A -> M B) : M (list B) :=
  match items with
  | [] => ret []
  | item :: more =>
      result <- mapper item ;;
      results <- pMap more mapper ;;
      ret (result :: results)
  end.

(** What the host hands to the [files-menu] handler. *)
Inductive TAbstractFile :=
| AFile (f : TFile)
| AFolder (p : str).

(** [files.filter((f) => f instanceof TFile)]. *)
Fixpoint onlyFiles (files : list TAbstractFile) : list TFile :=
  match files with
  | [] => []
  | AFile f :: more => f :: onlyFiles more
  | AFolder _ :: more => onlyFiles more
  end.

(** The click handler of the menu item [Generate titles]; there is no
    item when the selection holds no file. *)
Definition generateTitles (files : list TAbstractFile) : option (M (list unit)) :=
  match onlyFiles files with
  | [] => None
  | tFiles => Some (pMap tFiles generateTitleFromFile)
  end.

End Host.

(** * Vocabulary of the properties *)

(** The first, respectively last, character of [s] is in the class [p]. *)
Definition starts (p : N -> bool) (s : str) : bool :=
  match s with
  | [] => false
  | c :: _ => p c
  end.

Definition ends (p : N -> bool) (s : str) : bool := starts p (rev s).

(** No two neighbours are both in the class [p]. *)
Fixpoint no_double (p : N -> bool) (s : str) : bool :=
  match s with
  | [] => true
  | a :: tl => negb (p a && starts p tl) && no_double p tl
  end.

(** What every output of [removeInvalidFileNameChars] looks like. *)
Record filename_safe (s : str) : Prop := {
  safe_chars : Forall (fun c => is_invalid_char c = false) s;
  safe_start : starts is_ws s = false;
  safe_end : ends is_ws s = false;
  safe_single : no_double is_ws s = true
}.

(** The text a placeholder consists of. *)
Definition word_matches (w word : str) : Prop :=
  Forall2 (fun l c => eq_ci l c = true) w word.

Definition placeholder_text (m : str) : Prop :=
  exists w1 word w2,
    m = [123; 123] ++ w1 ++ word ++ w2 ++ [125; 125]
    /\ forallb is_ws w1 = true
    /\ forallb is_ws w2 = true
    /\ word_matches content_word word.

(** A replacement text without a dollar sign. *)
Definition no_dollar (c : str) : bool := forallb (fun x => negb (x =? 36)) c.

(** Characters a placeholder can hold between its delimiters. *)
Definition is_inner_char (c : N) : bool :=
  is_ws c || existsb (fun l => eq_ci l c) content_word.

Definition is_brace (c : N) : bool := (c =? 123) || (c =? 125).

(** A content that cannot take part in a placeholder: it has no brace, and
    some character of it is neither white space nor a letter of the word. *)
Definition inert (c : str) : bool :=
  forallb (fun x => negb (is_brace x)) c
  && existsb (fun x => negb (is_inner_char x)) c.

(** The notifications shown, the documents read and the provider calls made
    in a stretch of the log. *)
Fixpoint notices (l : list event) : list str :=
  match l with
  | [] => []
  | Notice message :: more => message :: notices more
  | _ :: more => notices more
  end.

Fixpoint reads (l : list event) : list TFile :=
  match l with
  | [] => []
  | CachedRead file :: more => file :: reads more
  | _ :: more => reads more
  end.

Definition is_provider_call (ev : event) : bool :=
  match ev with
  | CompletionsCreate _ _ | ChatCreate _ _ | Fetch _ => true
  | _ => false
  end.

(** The calls the guarded block of [generateTitle] can make. *)
Definition is_outside_call (ev : event) : bool :=
  match ev with
  | CompletionsCreate _ _ | ChatCreate _ _ | Fetch _ | RenameFile _ _ => true
  | _ => false
  end.

(** The [store] member of a request body. *)
Definition request_store (r : HttpRequest) : option json :=
  match body r with
  | JObj fields => own_property fields (js "store")
  | _ => None
  end.

Definition no_retention (ev : event) : Prop :=
  match ev with
  | Fetch r => request_store r = Some (JBool false)
  | _ => True
  end.

(** Only provider calls, and none that lets the provider keep the data. *)
Definition discreet_call (ev : event) : Prop :=
  is_provider_call ev = true /\ no_retention ev.

(** A computation that leaves the status bar alone and logs only events
    of the kind [Q]. *)
Definition emits {A : Type} (Q : event -> Prop) (m : M A) : Prop :=
  forall w,
    statusBar (snd (m w)) = statusBar w
    /\ exists new, log (snd (m w)) = log w ++ new /\ Forall Q new.

(** The world in which the guarded block of [generateTitle] starts. *)
Definition indicator_shown (w : World) : World :=
  snd (bind addStatusBarItem (fun item => createEl item (js "Generating title...")) w).

(** [String.prototype.toLowerCase] on ASCII text. *)
Definition ascii_lower (c : N) : N :=
  if (65 <=? c) && (c <=? 90) then c + 32 else c.

Definition lowers_ascii (P : Platform) : Prop :=
  forall s, Forall (fun c => c < 128) s -> toLowerCase P s = map ascii_lower s.

(** A document path as the host keeps it: not empty, no slash at either
    end, no empty component, no backslash and no non-breaking space. *)
Definition clean_path (p : str) : bool :=
  match p with
  | [] => false
  | _ =>
      negb (starts is_slash p) && negb (ends is_slash p)
      && no_double is_separator p
      && forallb (fun c => negb (c =? 92) && negb (c =? 160) && negb (c =? 8239)) p
  end.

(** The directory of a parsed path with the slash that ends it. *)
Definition dir_prefix (parsed : ParsedPath) : str :=
  match dir parsed with
  | [] => []
  | d => d ++ [47]
  end.

(** The key held by the client handle once [callOpenAI] has made sure that
    there is one. *)
Definition client_key (settings : TitleGeneratorSettings) (w : World) : str :=
  match openaiClient w with
  | Some key => key
  | None => openAiApiKey settings
  end.

(** What the catch block of [generateTitle] writes for an outcome of the
    guarded block. *)
Definition failure_report (P : Platform) (attempt : Outcome unit) : list event :=
  match attempt with
  | Return _ => []
  | Throw err => [ConsoleError err; Notice (notice_text P err)]
  end.

(** A successful answer of the network with the given parsed body. *)
Definition ok_response (data : json) : HttpResponse :=
  {| res_ok := true; res_status := 200; res_text := Return []; res_json := Return data |}.

(** ** Sample surroundings *)

Definition empty_world : World :=
  {| log := []; statusBar := []; openaiClient := None |}.

(** A platform on which everything works: the provider answers with a
    quoted title, the network with an empty object. *)
Definition sample_title : str := [34] ++ js "Great Ideas" ++ [34].

Definition sample_platform : Platform :=
  {| toLowerCase := map ascii_lower;
     normalizeNFC := fun s => s;
     numberToString := fun _ => js "0";
     engineMessage := fun _ => js "Cannot read properties of null";
     cachedRead := fun _ _ => Return (js "Some notes.");
     completionsCreate := fun _ _ _ =>
       Return {| cr_choices := Some [ {| cc_text := Some sample_title |} ] |};
     chatCreate := fun _ _ _ =>
       Return {| hr_choices :=
                   Some [ {| hc_message := Some {| cm_content := Some sample_title |} |} ] |};
     fetch := fun _ _ => Return (ok_response (JObj []));
     renameFile := fun _ _ _ => Return tt |}.

(** The same platform with a network that answers [null]. *)
Definition null_body_platform : Platform :=
  {| toLowerCase := toLowerCase sample_platform;
     normalizeNFC := normalizeNFC sample_platform;
     numberToString := numberToString sample_platform;
     engineMessage := engineMessage sample_platform;
     cachedRead := cachedRead sample_platform;
     completionsCreate := completionsCreate sample_platform;
     chatCreate := chatCreate sample_platform;
     fetch := fun _ _ => Return (ok_response JNull);
     renameFile := renameFile sample_platform |}.

(** The same platform on which the document [gone.md] cannot be read. *)
Definition unreadable_platform : Platform :=
  {| toLowerCase := toLowerCase sample_platform;
     normalizeNFC := normalizeNFC sample_platform;
     numberToString := numberToString sample_platform;
     engineMessage := engineMessage sample_platform;
     cachedRead := fun _ file =>
       if str_eqb (path file) (js "gone.md")
       then Throw (Rejection (js "Error: ENOENT"))
       else Return (js "Some notes.");
     completionsCreate := completionsCreate sample_platform;
     chatCreate := chatCreate sample_platform;
     fetch := fetch sample_platform;
     renameFile := renameFile sample_platform |}.

Definition gone : TFile := {| path := js "gone.md" |}.

Definition kept : TFile := {| path := js "kept.md" |}.

Definition old_name : TFile := {| path := js "folder/old-name.md" |}.

Definition fireworks_settings : TitleGeneratorSettings :=
  {| provider := fireworks;
     openAiApiKey := [];
     openAiModel := DEFAULT_MODEL;
     fireworksApiKey := js "fw-key";
     fireworksModel := js "accounts/fireworks/models/llama-v3p1-8b-instruct";
     customPrompt := DEFAULT_PROMPT |}.

Definition openai_settings : TitleGeneratorSettings :=
  {| provider := openai;
     openAiApiKey := js "sk-key";
     openAiModel := js "  ";
     fireworksApiKey := [];
     fireworksModel := [];
     customPrompt := DEFAULT_PROMPT |}.

(** * The rest of the plugin *)

(** ** Prompt presets *)

Record Preset := {
  preset_label : str;
  preset_prompt : str
}.

Definition PRESET_kebab : Preset :=
  {| preset_label := js "Kebab-case slug (<=6 words, lowercase, filename-safe)";
     preset_prompt :=
       js "You are naming a note. Based on the note content below, produce a short, descriptive kebab-case slug for the filename."
       ++ nl ++ js "Rules:" ++ nl ++ js "- 3 to 6 words" ++ nl
       ++ js "- lowercase letters and digits only" ++ nl
       ++ js "- words separated by dashes" ++ nl
       ++ js "- no quotes, no trailing punctuation, no emojis" ++ nl
       ++ js "- remove or rewrite anything unsafe for filenames" ++ nl ++ nl
       ++ js "Content:" ++ nl ++ js "{{content}}" ++ nl ++ nl
       ++ js "Only return the slug." |}.

Definition PRESET_titlecase : Preset :=
  {| preset_label := js "Human-friendly Title Case (concise, ~6 words)";
     preset_prompt :=
       js "Write a concise, human-friendly Title Case note title based on the content below."
       ++ nl ++ js "Rules:" ++ nl ++ js "- ~4" ++ [8211] ++ js "8 words"
       ++ nl ++ js "- No trailing punctuation" ++ nl
       ++ js "- No quotes or emojis" ++ nl
       ++ js "- Keep it descriptive but compact" ++ nl ++ nl
       ++ js "Content:" ++ nl ++ js "{{content}}" ++ nl ++ nl
       ++ js "Return only the title." |}.

Definition PRESET_camel : Preset :=
  {| preset_label := js "CamelCase (project-style identifier)";
     preset_prompt :=
       js "Create a concise CamelCase identifier that could serve as a project-style note title."
       ++ nl ++ js "Rules:" ++ nl ++ js "- 2" ++ [8211]
       ++ js "5 words combined into CamelCase" ++ nl
       ++ js "- No spaces, punctuation, or emojis" ++ nl
       ++ js "- Keep it descriptive and readable" ++ nl ++ nl
       ++ js "Content:" ++ nl ++ js "{{content}}" ++ nl ++ nl
       ++ js "Return only the CamelCase identifier." |}.

Definition PRESET_spacesLower : Preset :=
  {| preset_label := js "Space-separated, lowercase (<=60 chars)";
     preset_prompt :=
       js "Create a space-separated, lowercase title based on the content below."
       ++ nl ++ js "Rules:" ++ nl ++ js "- Max 60 characters total" ++ nl
       ++ js "- No trailing punctuation, quotes, or emojis" ++ nl
       ++ js "- Be descriptive yet compact" ++ nl ++ nl ++ js "Content:"
       ++ nl ++ js "{{content}}" ++ nl ++ nl ++ js "Return only the title." |}.

Definition PRESET_ticket : Preset :=
  {| preset_label := js "JIRA-style summary (<=8 words, no punctuation)";
     preset_prompt :=
       js "Write a crisp, JIRA-style summary title." ++ nl ++ js "Rules:"
       ++ nl ++ js "- <= 8 words" ++ nl ++ js "- No trailing punctuation"
       ++ nl ++ js "- No quotes or emojis" ++ nl
       ++ js "- Action- or topic-focused" ++ nl ++ nl ++ js "Content:" ++ nl
       ++ js "{{content}}" ++ nl ++ nl ++ js "Return only the title." |}.

Definition PROMPT_PRESETS : list (str * Preset) :=
  [ (js "kebab", PRESET_kebab);
    (js "titlecase", PRESET_titlecase);
    (js "camel", PRESET_camel);
    (js "spacesLower", PRESET_spacesLower);
    (js "ticket", PRESET_ticket) ].

(** [PROMPT_PRESETS[key]] for a key of the drop-down, which offers the
    keys of the table and nothing else. *)
Fixpoint preset_of (table : list (str * Preset)) (key : str) : option Preset :=
  match table with
  | [] => None
  | (k, preset) :: more => if str_eqb k key then Some preset else preset_of more key
  end.

(** ** Settings tab *)

(** The assignments the handlers of the tab make to the settings before
    they save them. *)
Definition with_provider (val : Provider) (s : TitleGeneratorSettings) : TitleGeneratorSettings :=
  {| provider := val;
     openAiApiKey := openAiApiKey s; openAiModel := openAiModel s;
     fireworksApiKey := fireworksApiKey s; fireworksModel := fireworksModel s;
     customPrompt := customPrompt s |}.

Definition with_openAiApiKey (newValue : str) (s : TitleGeneratorSettings) : TitleGeneratorSettings :=
  {| provider := provider s;
     openAiApiKey := trim newValue; openAiModel := openAiModel s;
     fireworksApiKey := fireworksApiKey s; fireworksModel := fireworksModel s;
     customPrompt := customPrompt s |}.

Definition with_openAiModel (newValue : str) (s : TitleGeneratorSettings) : TitleGeneratorSettings :=
  {| provider := provider s;
     openAiApiKey := openAiApiKey s; openAiModel := trim newValue;
     fireworksApiKey := fireworksApiKey s; fireworksModel := fireworksModel s;
     customPrompt := customPrompt s |}.

Definition with_fireworksApiKey (newValue : str) (s : TitleGeneratorSettings) : TitleGeneratorSettings :=
  {| provider := provider s;
     openAiApiKey := openAiApiKey s; openAiModel := openAiModel s;
     fireworksApiKey := trim newValue; fireworksModel := fireworksModel s;
     customPrompt := customPrompt s |}.

Definition with_fireworksModel (newValue : str) (s : TitleGeneratorSettings) : TitleGeneratorSettings :=
  {| provider := provider s;
     openAiApiKey := openAiApiKey s; openAiModel := openAiModel s;
     fireworksApiKey := fireworksApiKey s; fireworksModel := trim newValue;
     customPrompt := customPrompt s |}.

(** The text area of the custom prompt stores its value as typed. *)
Definition with_customPrompt (val : str) (s : TitleGeneratorSettings) : TitleGeneratorSettings :=
  {| provider := provider s;
     openAiApiKey := openAiApiKey s; openAiModel := openAiModel s;
     fireworksApiKey := fireworksApiKey s; fireworksModel := fireworksModel s;
     customPrompt := val |}.

(** The button [Use preset]: nothing is assigned when the table has no
    entry for the key. *)
Definition usePreset (presetKey : str) (s : TitleGeneratorSettings) : TitleGeneratorSettings :=
  match preset_of PROMPT_PRESETS presetKey with
  | Some preset => with_customPrompt (preset_prompt preset) s
  | None => s
  end.

(** The button [Restore default]. *)
Definition restoreDefault (s : TitleGeneratorSettings) : TitleGeneratorSettings :=
  with_customPrompt DEFAULT_PROMPT s.

(** ** Loading and saving the settings *)

(** What [loadData] finds: an object that holds some of the fields, or
    nothing at all. *)
Record StoredSettings := {
  stored_provider : option Provider;
  stored_openAiApiKey : option str;
  stored_openAiModel : option str;
  stored_fireworksApiKey : option str;
  stored_fireworksModel : option str;
  stored_customPrompt : option str
}.

Definition spread {A : Type} (default : A) (stored : option A) : A :=
  match stored with
  | Some v => v
  | None => default
  end.

(** [{ ...DEFAULT_SETTINGS, ...data }]. *)
Definition mergeSettings (data : option StoredSettings) : TitleGeneratorSettings :=
  match data with
  | None => DEFAULT_SETTINGS
  | Some d =>
      {| provider := spread (provider DEFAULT_SETTINGS) (stored_provider d);
         openAiApiKey := spread (openAiApiKey DEFAULT_SETTINGS) (stored_openAiApiKey d);
         openAiModel := spread (openAiModel DEFAULT_SETTINGS) (stored_openAiModel d);
         fireworksApiKey := spread (fireworksApiKey DEFAULT_SETTINGS) (stored_fireworksApiKey d);
         fireworksModel := spread (fireworksModel DEFAULT_SETTINGS) (stored_fireworksModel d);
         customPrompt := spread (customPrompt DEFAULT_SETTINGS) (stored_customPrompt d) |}
  end.

(** [loadSettings]; [loaded] is what awaiting [this.loadData()] gives. *)
Definition loadSettings (loaded : Outcome (option StoredSettings)) : M TitleGeneratorSettings :=
  bind (await loaded) (fun data => ret (mergeSettings data)).

(** [this.openai = new OpenAI({ apiKey, ... })]. *)
Definition newClient (apiKey : str) : M unit :=
  fun w =>
    (Return tt, {| log := log w; statusBar := statusBar w; openaiClient := Some apiKey |}).

(** [onload] up to the registration of the commands and menus, which only
    hands the entry points below to the host. *)
Definition onload (loaded : Outcome (option StoredSettings)) : M TitleGeneratorSettings :=
  bind (loadSettings loaded) (fun settings =>
  bind (newClient (openAiApiKey settings)) (fun _ =>
  ret settings)).

(** [if (this.openai) this.openai.apiKey = this.settings.openAiApiKey]. *)
Definition refreshClient (settings : TitleGeneratorSettings) : M unit :=
  fun w =>
    (Return tt,
     {| log := log w; statusBar := statusBar w;
        openaiClient := match openaiClient w with
                        | Some _ => Some (openAiApiKey settings)
                        | None => None
                        end |}).

(** [saveSettings]; [saved] is what awaiting [this.saveData(...)] gives. *)
Definition saveSettings (saved : Outcome unit) (settings : TitleGeneratorSettings) : M unit :=
  bind (await saved) (fun _ => refreshClient settings).

(** ** Entry points *)

(** The provider call of [generateTitle]: lines 359-366. *)
Definition complete (P : Platform) (settings : TitleGeneratorSettings) (prompt : str) : M str :=
  match provider settings with
  | fireworks => callFireworks P settings prompt
  | openai =>
      match openAiApiKey settings with
      | [] => throw MISSING_KEY
      | _ => callOpenAI P settings prompt
      end
  end.

(** [generateTitleFromEditor]: [activeFile] is what [getActiveFile()]
    returns and [editorValue] what [editor.getValue()] returns.  The call of
    [generateTitle] is not awaited; as it never throws, running it to its
    end here differs from the source only in when the caller goes on. *)
Definition generateTitleFromEditor (P : Platform) (settings : TitleGeneratorSettings)
    (activeFile : option TFile) (editorValue : str) : M unit :=
  match activeFile with
  | None => throw (Error (js "No active file"))
  | Some file => generateTitle P settings file editorValue
  end.

(** The [file-menu] handler: the click handler of the item [Generate
    title], which is only added for a file. *)
Definition fileMenu (P : Platform) (settings : TitleGeneratorSettings)
    (file : TAbstractFile) : option (M unit) :=
  match file with
  | AFile f => Some (generateTitleFromFile P settings f)
  | AFolder _ => None
  end.

(** ** Further vocabulary *)

(** The renames and the provider calls in a stretch of the log. *)
Fixpoint renames (l : list event) : list (TFile * str) :=
  match l with
  | [] => []
  | RenameFile file newPath :: more => (file, newPath) :: renames more
  | _ :: more => renames more
  end.

Definition provider_calls (l : list event) : list event := filter is_provider_call l.

(** White space in a text is the plain space only. *)
Definition only_spaces (s : str) : Prop := Forall (fun c => is_ws c = true -> c = 32) s.

(** ** Further sample surroundings *)

(** The sample platform with a provider that answers with blanks only. *)
Definition blank_answer_platform : Platform :=
  {| toLowerCase := toLowerCase sample_platform;
     normalizeNFC := normalizeNFC sample_platform;
     numberToString := numberToString sample_platform;
     engineMessage := engineMessage sample_platform;
     cachedRead := cachedRead sample_platform;
     completionsCreate := completionsCreate sample_platform;
     chatCreate := fun _ _ _ =>
       Return {| hr_choices :=
                   Some [ {| hc_message := Some {| cm_content := Some (js "  ") |} |} ] |};
     fetch := fetch sample_platform;
     renameFile := renameFile sample_platform |}.

(** The sample platform on which the host refuses the rename. *)
Definition name_taken : js_error := Rejection (js "Error: Destination file already exists!").

Definition failing_rename_platform : Platform :=
  {| toLowerCase := toLowerCase sample_platform;
     normalizeNFC := normalizeNFC sample_platform;
     numberToString := numberToString sample_platform;
     engineMessage := engineMessage sample_platform;
     cachedRead := cachedRead sample_platform;
     completionsCreate := completionsCreate sample_platform;
     chatCreate := chatCreate sample_platform;
     fetch := fetch sample_platform;
     renameFile := fun _ _ _ => Throw name_taken |}.

(** The sample platform with a provider that is out of service: the SDK
    rejects, and the network answers with status 503 and a body that cannot
    be read. *)
Definition out_of_service : js_error := Rejection (js "Error: 503 Service Unavailable").

Definition unavailable_response : HttpResponse :=
  {| res_ok := false; res_status := 503;
     res_text := Throw (Rejection (js "TypeError: body stream already read"));
     res_json := Throw (Rejection (js "SyntaxError: Unexpected end of JSON input")) |}.

Definition unavailable_platform : Platform :=
  {| toLowerCase := toLowerCase sample_platform;
     normalizeNFC := normalizeNFC sample_platform;
     numberToString := numberToString sample_platform;
     engineMessage := engineMessage sample_platform;
     cachedRead := cachedRead sample_platform;
     completionsCreate := fun _ _ _ => Throw out_of_service;
     chatCreate := fun _ _ _ => Throw out_of_service;
     fetch := fun _ _ => Return unavailable_response;
     renameFile := renameFile sample_platform |}.

(** A world in which the client handle holds an older key. *)
Definition world_with_old_key : World :=
  {| log := []; statusBar := []; openaiClient := Some (js "sk-old") |}.

(** Calls through the OpenAI client, and requests sent with [fetch]. *)
Definition is_sdk_call (ev : event) : bool :=
  match ev with
  | CompletionsCreate _ _ | ChatCreate _ _ => true
  | _ => false
  end.

Definition is_fetch (ev : event) : bool :=
  match ev with
  | Fetch _ => true
  | _ => false
  end.

(** What [generateTitle] leaves in the log behind the provider call: an
    error report, or the one rename, with a report if the host refused
    it. *)
Definition closing_events (P : Platform) (file : TFile) (tail : list event) : Prop :=
  (exists err, tail = failure_report P (Throw err))
  \/ (exists title (outcome : Outcome unit),
        title <> [] /\ filename_safe title
        /\ tail = RenameFile file (rename_target P file title) :: failure_report P outcome).

(** ** Titles and paths that normalisation changes *)

(** Normal form C on the texts used below: the letter e followed by the
    combining acute accent U+0301 is composed to U+00E9, and the other code
    units, none of which takes part in a composition, stay as they are. *)
Fixpoint compose_acute (s : str) : str :=
  match s with
  | [] => []
  | c :: tl =>
      match tl with
      | [] => [c]
      | d :: tl' =>
          if (c =? 101) && (d =? 769) then 233 :: compose_acute tl'
          else c :: compose_acute tl
      end
  end.

(** The sample platform with that normalisation. *)
Definition composing_platform : Platform :=
  {| toLowerCase := toLowerCase sample_platform;
     normalizeNFC := compose_acute;
     numberToString := numberToString sample_platform;
     engineMessage := engineMessage sample_platform;
     cachedRead := cachedRead sample_platform;
     completionsCreate := completionsCreate sample_platform;
     chatCreate := chatCreate sample_platform;
     fetch := fetch sample_platform;
     renameFile := renameFile sample_platform |}.

(** A title in decomposed form: Cafe followed by U+0301. *)
Definition decomposed_title : str := js "Cafe" ++ [769].

(** A document in a folder whose name holds a non-breaking space. *)
Definition spaced_folder_note : TFile := {| path := js "my" ++ [160] ++ js "notes/x.md" |}.

(** * Properties of the sanitizer *)

Section Runs.

Variable p : N -> bool.

Lemma take_drop (s : str) : takeWhile p s ++ dropWhile p s = s.
Proof.
  induction s as [|c tl IH]; simpl; [reflexivity|].
  destruct (p c); simpl; [now rewrite IH | reflexivity].
Qed.

Lemma takeWhile_all (s : str) : forallb p (takeWhile p s) = true.
Proof.
  induction s as [|c tl IH]; simpl; [reflexivity|].
  destruct (p c) eqn:E; simpl; [now rewrite E | reflexivity].
Qed.

Lemma dropWhile_starts (s : str) : starts p (dropWhile p s) = false.
Proof.
  induction s as [|c tl IH]; simpl; [reflexivity|].
  destruct (p c) eqn:E; simpl; assumption.
Qed.

Lemma dropWhile_id (s : str) : starts p s = false -> dropWhile p s = s.
Proof.
  destruct s as [|c tl]; simpl; [reflexivity|].
  now intros ->.
Qed.

Lemma dropWhile_suffix (s : str) : exists front, s = front ++ dropWhile p s.
Proof. exists (takeWhile p s). symmetry. apply take_drop. Qed.

Lemma dropWhileEnd_prefix (s : str) :
  s = dropWhileEnd p s ++ takeWhileEnd p s.
Proof.
  unfold dropWhileEnd, takeWhileEnd.
  rewrite <- rev_app_distr, take_drop, rev_involutive. reflexivity.
Qed.

Lemma dropWhileEnd_ends (s : str) : ends p (dropWhileEnd p s) = false.
Proof.
  unfold ends, dropWhileEnd. rewrite rev_involutive. apply dropWhile_starts.
Qed.

Lemma dropWhileEnd_id (s : str) : ends p s = false -> dropWhileEnd p s = s.
Proof.
  unfold ends, dropWhileEnd. intros H.
  rewrite dropWhile_id by assumption. apply rev_involutive.
Qed.

Lemma starts_app (a b : str) : a <> [] -> starts p (a ++ b) = starts p a.
Proof. destruct a; simpl; congruence. Qed.

Lemma dropWhileEnd_starts (s : str) :
  starts p s = false -> starts p (dropWhileEnd p s) = false.
Proof.
  intros H. destruct (dropWhileEnd p s) as [|c tl] eqn:E; [reflexivity|].
  rewrite (dropWhileEnd_prefix s), E in H. exact H.
Qed.

Lemma strip_trailing_id (s : str) :
  ends p s = false -> strip_trailing p s = s.
Proof.
  unfold ends. induction s as [|c tl IH]; [reflexivity|].
  intros H. cbn [strip_trailing].
  destruct (forallb p (c :: tl)) eqn:E.
  - exfalso. assert (A : forallb p (rev (c :: tl)) = true).
    { rewrite forallb_forall in *. intros x Hx. apply E. now apply in_rev. }
    destruct (rev (c :: tl)) as [|d r] eqn:R.
    + apply (f_equal (@length N)) in R. rewrite length_rev in R. discriminate.
    + simpl in A, H. rewrite H in A. discriminate.
  - f_equal. destruct tl as [|d tl']; [reflexivity|].
    apply IH. simpl in H. simpl.
    destruct (rev tl' ++ [d]) eqn:R.
    + destruct (rev tl'); discriminate.
    + exact H.
Qed.

End Runs.

Lemma Forall_dropWhile (Q : N -> Prop) p s : Forall Q s -> Forall Q (dropWhile p s).
Proof.
  intros H. destruct (dropWhile_suffix p s) as [f E]. rewrite E in H.
  now apply Forall_app in H.
Qed.

Lemma Forall_dropWhileEnd (Q : N -> Prop) p s : Forall Q s -> Forall Q (dropWhileEnd p s).
Proof.
  intros H. rewrite (dropWhileEnd_prefix p s) in H. now apply Forall_app in H.
Qed.

Lemma no_double_app_l (p : N -> bool) (a b : str) :
  no_double p (a ++ b) = true -> no_double p a = true.
Proof.
  induction a as [|c tl IH]; simpl; [reflexivity|].
  intros H. apply andb_true_iff in H as [H1 H2]. rewrite (IH H2), andb_true_r.
  destruct tl as [|d tl']; simpl in *; [now rewrite andb_false_r | exact H1].
Qed.

Lemma no_double_app_r (p : N -> bool) (a b : str) :
  no_double p (a ++ b) = true -> no_double p b = true.
Proof.
  induction a as [|c tl IH]; simpl; [trivial|].
  intros H. apply andb_true_iff in H as [_ H2]. auto.
Qed.

Lemma trim_starts (s : str) : starts is_ws (trim s) = false.
Proof. apply dropWhileEnd_starts, dropWhile_starts. Qed.

Lemma trim_ends (s : str) : ends is_ws (trim s) = false.
Proof. apply dropWhileEnd_ends. Qed.

Lemma trim_id (s : str) : starts is_ws s = false -> ends is_ws s = false -> trim s = s.
Proof.
  intros H1 H2. unfold trim. rewrite dropWhile_id by assumption.
  now apply dropWhileEnd_id.
Qed.

Lemma Forall_trim (Q : N -> Prop) s : Forall Q s -> Forall Q (trim s).
Proof. intros. now apply Forall_dropWhileEnd, Forall_dropWhile. Qed.

Lemma no_double_trim (s : str) : no_double is_ws s = true -> no_double is_ws (trim s) = true.
Proof.
  intros H. unfold trim.
  destruct (dropWhile_suffix is_ws s) as [f E]. rewrite E in H.
  apply no_double_app_r in H.
  rewrite (dropWhileEnd_prefix is_ws (dropWhile is_ws s)) in H.
  now apply no_double_app_l in H.
Qed.

(** The output of a collapse of runs. *)
Section Collapse.

Variable cls : N -> bool.
Variable r : N.

Lemma collapse_shape (b : bool) (s : str) :
  cls r = true ->
  no_double cls (collapse_runs cls r b s) = true
  /\ (b = true -> starts cls (collapse_runs cls r b s) = false).
Proof.
  intros Hr. revert b. induction s as [|c tl IH]; intros b; simpl; [auto|].
  destruct (cls c) eqn:E.
  - destruct (IH true) as [A B]. specialize (B eq_refl).
    destruct b; [auto|]. split; [|discriminate].
    simpl. rewrite B, A, Hr. reflexivity.
  - destruct (IH false) as [A _]. split; [|simpl; auto].
    simpl. rewrite E, A. reflexivity.
Qed.

Lemma collapse_Forall (Q : N -> Prop) (b : bool) (s : str) :
  Q r -> Forall Q s -> Forall Q (collapse_runs cls r b s).
Proof.
  intros Qr H. revert b. induction H as [|c tl Hc Htl IH]; intros b; simpl; [constructor|].
  destruct (cls c); [destruct b|]; auto.
Qed.

Lemma collapse_only_replacement (b : bool) (s : str) :
  Forall (fun c => cls c = true -> c = r) (collapse_runs cls r b s).
Proof.
  revert b. induction s as [|c tl IH]; intros b; simpl; [constructor|].
  destruct (cls c) eqn:E; [destruct b|]; auto.
  constructor; [congruence | auto].
Qed.

Lemma collapse_id (b : bool) (s : str) :
  (b = true -> starts cls s = false) ->
  no_double cls s = true ->
  Forall (fun c => cls c = true -> c = r) s ->
  collapse_runs cls r b s = s.
Proof.
  revert b. induction s as [|c tl IH]; intros b Hb Hd Ha; simpl; [reflexivity|].
  simpl in Hd. apply andb_true_iff in Hd as [Hd1 Hd2].
  inversion Ha as [|? ? Hc Htl]; subst.
  destruct (cls c) eqn:E.
  - destruct b; [specialize (Hb eq_refl); simpl in Hb; congruence|].
    rewrite (Hc eq_refl) in *. f_equal. apply IH; auto.
    intros _. simpl in Hd1. now destruct (starts cls tl).
  - f_equal. apply IH; auto. discriminate.
Qed.

End Collapse.

Lemma map_replace_invalid_clean (s : str) :
  Forall (fun c => is_invalid_char c = false) (map replace_invalid s).
Proof.
  induction s as [|c tl IH]; simpl; constructor; [|assumption].
  unfold replace_invalid. destruct (is_invalid_char c) eqn:E; [reflexivity | exact E].
Qed.

Lemma map_replace_invalid_id (s : str) :
  Forall (fun c => is_invalid_char c = false) s -> map replace_invalid s = s.
Proof.
  induction 1 as [|c tl Hc Htl IH]; simpl; [reflexivity|].
  unfold replace_invalid at 1. now rewrite Hc, IH.
Qed.

Lemma removeInvalidFileNameChars_safe (s : str) :
  filename_safe (removeInvalidFileNameChars s).
Proof.
  unfold removeInvalidFileNameChars, collapse_ws. split.
  - apply Forall_trim, collapse_Forall; [reflexivity | apply map_replace_invalid_clean].
  - apply trim_starts.
  - apply trim_ends.
  - apply no_double_trim, collapse_shape. reflexivity.
Qed.

Lemma removeInvalidFileNameChars_only_spaces (s : str) :
  Forall (fun c => is_ws c = true -> c = 32) (removeInvalidFileNameChars s).
Proof. apply Forall_trim, collapse_only_replacement. Qed.

Lemma removeInvalidFileNameChars_fixed (s : str) :
  filename_safe s ->
  Forall (fun c => is_ws c = true -> c = 32) s ->
  removeInvalidFileNameChars s = s.
Proof.
  intros [A B C D] E. unfold removeInvalidFileNameChars, collapse_ws.
  rewrite map_replace_invalid_id by assumption.
  rewrite collapse_id; auto; try discriminate.
  now apply trim_id.
Qed.

(** C10.  For every input the sanitizer's output holds none of the nine
    characters that file systems refuse, neither starts nor ends with white
    space, and has no two white-space characters in a row. *)
Theorem sanitize_filename_safe (x : str) :
  Forall (fun c => is_invalid_char c = false) (sanitize x)
  /\ starts is_ws (sanitize x) = false
  /\ ends is_ws (sanitize x) = false
  /\ no_double is_ws (sanitize x) = true.
Proof.
  destruct (removeInvalidFileNameChars_safe (stripSurroundingQuotes x)) as [A B C D].
  unfold sanitize. auto.
Qed.

Lemma starts_orb (p q : N -> bool) (s : str) :
  starts (fun c => p c || q c) s = starts p s || starts q s.
Proof. destruct s; reflexivity. Qed.

Lemma stripSurroundingQuotes_id (s : str) :
  starts is_ws s = false -> ends is_ws s = false ->
  starts is_quote s = false -> ends is_quote s = false ->
  stripSurroundingQuotes s = s.
Proof.
  intros A B C D. unfold stripSurroundingQuotes, strip_ends.
  assert (S1 : starts is_strip_class s = false).
  { unfold is_strip_class. rewrite starts_orb, A, C. reflexivity. }
  assert (S2 : ends is_strip_class s = false).
  { unfold ends, is_strip_class in *. rewrite starts_orb, B, D. reflexivity. }
  rewrite dropWhile_id by assumption. now apply strip_trailing_id.
Qed.

(** C2, amended.  A second pass of the sanitizer changes nothing whenever
    the first pass left no single or curly quotation mark at either end of
    its result. *)
Theorem sanitize_idempotent_without_outer_quotes (x : str) :
  starts is_quote (sanitize x) = false ->
  ends is_quote (sanitize x) = false ->
  sanitize (sanitize x) = sanitize x.
Proof.
  intros Hs He.
  destruct (removeInvalidFileNameChars_safe (stripSurroundingQuotes x)) as [A B C D].
  fold (sanitize x) in A, B, C, D.
  unfold sanitize at 1.
  rewrite stripSurroundingQuotes_id by assumption.
  apply removeInvalidFileNameChars_fixed.
  - split; assumption.
  - apply removeInvalidFileNameChars_only_spaces.
Qed.

Lemma sanitize_idempotent_without_outer_quotes_witness :
  starts is_quote (sanitize (js "  Notes/Plan: Q3  ")) = false
  /\ ends is_quote (sanitize (js "  Notes/Plan: Q3  ")) = false
  /\ sanitize (sanitize (js "  Notes/Plan: Q3  ")) = sanitize (js "  Notes/Plan: Q3  ").
Proof.
  assert (H1 : starts is_quote (sanitize (js "  Notes/Plan: Q3  ")) = false) by reflexivity.
  assert (H2 : ends is_quote (sanitize (js "  Notes/Plan: Q3  ")) = false) by reflexivity.
  split; [exact H1|]. split; [exact H2|].
  exact (sanitize_idempotent_without_outer_quotes (js "  Notes/Plan: Q3  ") H1 H2).
Defined.

(** C2 as stated fails: a quotation mark that only the second step brings
    to the front is removed by the next pass. *)
Lemma sanitize_not_idempotent :
  sanitize (sanitize (js ":'a")) <> sanitize (js ":'a").
Proof. vm_compute. discriminate. Qed.

(** The examples of the specification. *)
Example sanitize_quoted_title :
  sanitize (js "  " ++ [34] ++ js "My Title!" ++ [34] ++ js "  ") = js "My Title!".
Proof. vm_compute. reflexivity. Qed.

Example sanitize_path_like_title :
  sanitize (js "Notes/Plan: Q3") = js "Notes Plan Q3".
Proof. vm_compute. reflexivity. Qed.

Lemma ends_cons_nonempty (p : N -> bool) (c : N) (s : str) :
  s <> [] -> ends p (c :: s) = ends p s.
Proof.
  intros Hs. unfold ends. simpl. apply starts_app.
  intros E. apply (f_equal (@rev N)) in E. rewrite rev_involutive in E. contradiction.
Qed.

Lemma length_dropWhile (p : N -> bool) (s : str) :
  (length (dropWhile p s) <= length s)%nat.
Proof.
  destruct (dropWhile_suffix p s) as [front E]. rewrite E at 2.
  rewrite length_app. lia.
Qed.

Lemma length_dropWhileEnd (p : N -> bool) (s : str) :
  (length (dropWhileEnd p s) <= length s)%nat.
Proof.
  rewrite (dropWhileEnd_prefix p s) at 2. rewrite length_app. lia.
Qed.

Lemma length_collapse (cls : N -> bool) (r : N) (b : bool) (s : str) :
  (length (collapse_runs cls r b s) <= length s)%nat.
Proof.
  revert b. induction s as [|c tl IH]; intros b; simpl; [lia|].
  pose proof (IH true) as Ht. pose proof (IH false) as Hf.
  destruct (cls c); [destruct b|]; simpl; lia.
Qed.

Lemma length_removeInvalidFileNameChars (s : str) :
  (length (removeInvalidFileNameChars s) <= length s)%nat.
Proof.
  unfold removeInvalidFileNameChars, trim, collapse_ws.
  etransitivity; [apply length_dropWhileEnd|].
  etransitivity; [apply length_dropWhile|].
  etransitivity; [apply length_collapse|]. now rewrite length_map.
Qed.

Lemma strip_trailing_split (cls : N -> bool) (s : str) :
  exists t, s = strip_trailing cls s ++ t /\ ends cls (strip_trailing cls s) = false.
Proof.
  induction s as [|c tl IH]; [now exists []|].
  cbn [strip_trailing]. destruct (forallb cls (c :: tl)) eqn:E.
  - now exists (c :: tl).
  - destruct IH as (t & Et & He). exists t. split; [simpl; now f_equal|].
    destruct (strip_trailing cls tl) as [|d rest] eqn:Es.
    + unfold ends. simpl. simpl in E.
      destruct (cls c); [|reflexivity]. simpl in E.
      destruct tl as [|d tl']; [discriminate|].
      cbn [strip_trailing] in Es. destruct (forallb cls (d :: tl')); discriminate.
    + rewrite <- He. apply (ends_cons_nonempty cls c (d :: rest)). discriminate.
Qed.

Lemma strip_ends_shorter (cls : N -> bool) (s : str) :
  starts cls s = true \/ ends cls s = true ->
  (length (strip_ends cls s) < length s)%nat.
Proof.
  unfold strip_ends. intros H.
  destruct (strip_trailing_split cls (dropWhile cls s)) as (t & Et & He).
  pose proof (f_equal (@length N) Et) as Lt. rewrite length_app in Lt.
  destruct (dropWhile_suffix cls s) as [front Ef].
  pose proof (f_equal (@length N) Ef) as Lf. rewrite length_app in Lf.
  destruct front as [|y front]; [|simpl in Lf; lia].
  simpl in Ef. rewrite <- Ef in *. destruct H as [H|H].
  - pose proof (dropWhile_starts cls s) as Hs. rewrite <- Ef in Hs. congruence.
  - destruct t as [|x t]; [|simpl in Lt; lia].
    rewrite app_nil_r in Et. rewrite <- Et in He. congruence.
Qed.

(** The condition on the quotation marks is needed: one at an end of the
    sanitized text is taken away by the next pass. *)
Lemma sanitize_changes_outer_quotes (x : str) :
  starts is_quote (sanitize x) = true \/ ends is_quote (sanitize x) = true ->
  sanitize (sanitize x) <> sanitize x.
Proof.
  intros H E. apply (f_equal (@length N)) in E.
  pose proof (length_removeInvalidFileNameChars (stripSurroundingQuotes (sanitize x))) as L1.
  assert (L2 : (length (stripSurroundingQuotes (sanitize x)) < length (sanitize x))%nat).
  { apply strip_ends_shorter. unfold ends, is_strip_class in *.
    rewrite !starts_orb. destruct H as [-> | ->]; [left | right]; apply orb_true_r. }
  unfold sanitize at 1 in E. lia.
Qed.

(** * Properties of the template renderer *)

Lemma replace_from_cons (r b : str) (c : N) (tl : str) :
  replace_from r b (c :: tl) =
  match match_placeholder (c :: tl) with
  | Some m =>
      GetSubstitution m b (skipn (length m) (c :: tl)) r
        ++ replace_from r (b ++ m) (skipn (pred (length m)) tl)
  | None => c :: replace_from r (b ++ [c]) tl
  end.
Proof.
  simp replace_from. destruct (match_placeholder (c :: tl)); reflexivity.
Qed.

Lemma segments_cons (c : N) (tl : str) :
  segments (c :: tl) =
  match match_placeholder (c :: tl) with
  | Some m => [] :: segments (skipn (pred (length m)) tl)
  | None => cons_head c (segments tl)
  end.
Proof.
  simp segments. destruct (match_placeholder (c :: tl)); reflexivity.
Qed.

Lemma match_word_sound (w s m : str) :
  match_word w s = Some m ->
  word_matches w m /\ s = m ++ skipn (length m) s.
Proof.
  revert s m. induction w as [|l w IH]; intros s m; simpl.
  - intros [= <-]. split; [constructor | reflexivity].
  - destruct s as [|c tl]; [discriminate|].
    destruct (eq_ci l c) eqn:E; [|discriminate].
    destruct (match_word w tl) as [m'|] eqn:E'; [|discriminate].
    intros [= <-]. destruct (IH _ _ E') as [A B]. split.
    + constructor; assumption.
    + simpl. f_equal. exact B.
Qed.

Lemma match_word_complete (w m t : str) :
  word_matches w m -> match_word w (m ++ t) = Some m.
Proof.
  induction 1 as [|l c w m Hc _ IH]; simpl; [reflexivity|].
  now rewrite Hc, IH.
Qed.

Lemma takeWhile_app_stop (p : N -> bool) (a b : str) :
  forallb p a = true -> starts p b = false -> takeWhile p (a ++ b) = a.
Proof.
  induction a as [|c tl IH]; simpl.
  - intros _. destruct b; simpl; [reflexivity | now intros ->].
  - intros H Hb. apply andb_true_iff in H as [-> H]. f_equal. auto.
Qed.

Lemma dropWhile_app_stop (p : N -> bool) (a b : str) :
  forallb p a = true -> starts p b = false -> dropWhile p (a ++ b) = b.
Proof.
  induction a as [|c tl IH]; simpl.
  - intros _. destruct b; simpl; [reflexivity | now intros ->].
  - intros H Hb. apply andb_true_iff in H as [-> H]. auto.
Qed.

Lemma match_pair_sound (d : N) (s : str) :
  match_pair d s = true -> s = [d; d] ++ skipn 2 s.
Proof.
  destruct s as [|a [|b tl]]; simpl; try discriminate.
  intros H. apply andb_true_iff in H as [A B].
  apply N.eqb_eq in A, B. now subst.
Qed.

Lemma match_placeholder_sound (s m : str) :
  match_placeholder s = Some m ->
  placeholder_text m /\ s = m ++ skipn (length m) s.
Proof.
  unfold match_placeholder.
  destruct (match_pair 123 s) eqn:E1; [|discriminate].
  apply match_pair_sound in E1.
  remember (skipn 2 s) as s1 eqn:Es1.
  destruct (match_word content_word (dropWhile is_ws s1)) as [word|] eqn:E2; [|discriminate].
  apply match_word_sound in E2 as [Hw E2].
  remember (skipn (length word) (dropWhile is_ws s1)) as s3 eqn:Es3.
  destruct (match_pair 125 (dropWhile is_ws s3)) eqn:E3; [|discriminate].
  apply match_pair_sound in E3.
  intros [= <-]. split.
  - exists (takeWhile is_ws s1), word, (takeWhile is_ws s3).
    repeat split; auto using takeWhile_all.
  - assert (D : s = ([123; 123] ++ takeWhile is_ws s1 ++ word ++ takeWhile is_ws s3 ++ [125; 125])
                     ++ skipn 2 (dropWhile is_ws s3)).
    { rewrite E1 at 1. rewrite <- (take_drop is_ws s1) at 1. rewrite E2 at 1.
      rewrite <- (take_drop is_ws s3) at 1. rewrite E3 at 1.
      repeat rewrite <- app_assoc. reflexivity. }
    rewrite D at 2. rewrite skipn_app, skipn_all, Nat.sub_diag. simpl. exact D.
Qed.

Lemma word_matches_starts (word : str) :
  word_matches content_word word -> starts is_ws word = false.
Proof.
  unfold content_word. intros H. inversion H as [|l c w m Hc Hrest]; subst.
  simpl. unfold eq_ci in Hc. apply orb_true_iff in Hc as [Hc|Hc];
    apply N.eqb_eq in Hc; subst; reflexivity.
Qed.

Lemma match_placeholder_complete (m t : str) :
  placeholder_text m -> match_placeholder (m ++ t) = Some m.
Proof.
  intros (w1 & word & w2 & -> & H1 & H2 & Hw).
  unfold match_placeholder. cbn [app match_pair skipn].
  rewrite !N.eqb_refl. cbn [andb].
  repeat rewrite <- app_assoc.
  assert (S1 : starts is_ws (word ++ w2 ++ [125; 125] ++ t) = false).
  { rewrite starts_app; [now apply word_matches_starts|].
    intros ->. inversion Hw. }
  rewrite takeWhile_app_stop, dropWhile_app_stop by assumption.
  rewrite match_word_complete by assumption.
  rewrite skipn_app, skipn_all, Nat.sub_diag. cbn [skipn app].
  rewrite takeWhile_app_stop, dropWhile_app_stop by (auto; reflexivity).
  cbn. reflexivity.
Qed.

Lemma match_placeholder_extend (x y m : str) :
  match_placeholder x = Some m -> match_placeholder (x ++ y) = Some m.
Proof.
  intros H. apply match_placeholder_sound in H as [Hm E].
  rewrite E, <- app_assoc. now apply match_placeholder_complete.
Qed.

Lemma match_placeholder_length (s m : str) :
  match_placeholder s = Some m -> (4 <= length m)%nat.
Proof.
  intros H. apply match_placeholder_sound in H as [(w1 & word & w2 & -> & _) _].
  simpl. rewrite !length_app. simpl. lia.
Qed.

Lemma contains_placeholder_iff (s : str) :
  contains_placeholder s = true <->
  exists a m b, s = a ++ m ++ b /\ placeholder_text m.
Proof.
  split.
  - induction s as [|c tl IH]; simpl; [discriminate|].
    destruct (match_placeholder (c :: tl)) as [m|] eqn:E.
    + intros _. apply match_placeholder_sound in E as [Hm E].
      exists [], m, (skipn (length m) (c :: tl)). split; [exact E | exact Hm].
    + intros H. destruct (IH H) as (a & m & b & -> & Hm).
      exists (c :: a), m, b. split; [reflexivity | exact Hm].
  - intros (a & m & b & -> & Hm). induction a as [|c a IH].
    + pose proof (match_placeholder_complete m b Hm) as E.
      cbn [app]. destruct (m ++ b) as [|c tl] eqn:D.
      * destruct Hm as (? & ? & ? & -> & _). discriminate.
      * cbn [contains_placeholder]. now rewrite E.
    + cbn [app contains_placeholder].
      destruct (match_placeholder (c :: a ++ m ++ b)); [reflexivity | exact IH].
Qed.

Lemma GetSubstitution_plain (m b a c : str) :
  no_dollar c = true -> GetSubstitution m b a c = c.
Proof.
  unfold no_dollar. induction c as [|x tl IH]; simpl; [reflexivity|].
  intros H. apply andb_true_iff in H as [Hx H].
  apply negb_true_iff in Hx. rewrite Hx. f_equal. auto.
Qed.

Lemma segments_head (s : str) :
  exists seg more rest, segments s = seg :: more /\ s = seg ++ rest.
Proof.
  induction s as [|c tl IH].
  - exists [], [], []. split; [now simp segments | reflexivity].
  - rewrite segments_cons. destruct (match_placeholder (c :: tl)) as [m|].
    + exists [], (segments (skipn (pred (length m)) tl)), (c :: tl). auto.
    + destruct IH as (seg & more & rest & -> & E).
      exists (c :: seg), more, rest. split; [reflexivity|]. simpl. now f_equal.
Qed.

Lemma join_cons (filler seg : str) (segs : list str) :
  segs <> [] -> join filler (seg :: segs) = seg ++ filler ++ join filler segs.
Proof. destruct segs; [congruence | reflexivity]. Qed.

Lemma segments_not_nil (s : str) : segments s <> [].
Proof. destruct (segments_head s) as (? & ? & ? & -> & _). discriminate. Qed.

Lemma join_cons_head (filler : str) (c : N) (segs : list str) :
  segs <> [] -> join filler (cons_head c segs) = c :: join filler segs.
Proof.
  destruct segs as [|seg [|seg' more]]; [congruence | reflexivity | reflexivity].
Qed.

Lemma skipn_pred_cons (m : str) (c : N) (tl : str) :
  (0 < length m)%nat -> skipn (length m) (c :: tl) = skipn (pred (length m)) tl.
Proof. destruct m; simpl; [lia | reflexivity]. Qed.

Lemma replace_from_join (c : str) :
  no_dollar c = true ->
  forall (n : nat) (s before : str), (length s <= n)%nat ->
  replace_from c before s = join c (segments s).
Proof.
  intros Hc. induction n as [|n IH]; intros s before Hn.
  - destruct s; [|simpl in Hn; lia]. now simp replace_from segments.
  - destruct s as [|x tl]; [now simp replace_from segments|].
    rewrite replace_from_cons, segments_cons.
    destruct (match_placeholder (x :: tl)) as [m|].
    + rewrite GetSubstitution_plain by assumption.
      rewrite join_cons by apply segments_not_nil. simpl. f_equal.
      apply IH. rewrite length_skipn. simpl in Hn. lia.
    + rewrite join_cons_head by apply segments_not_nil. f_equal.
      apply IH. simpl in Hn. lia.
Qed.

Lemma segments_clean_bounded (n : nat) (s : str) :
  (length s <= n)%nat ->
  Forall (fun seg => contains_placeholder seg = false) (segments s).
Proof.
  revert s. induction n as [|n IH]; intros s Hn.
  - destruct s; [|simpl in Hn; lia]. simp segments. repeat constructor.
  - destruct s as [|x tl]; [simp segments; repeat constructor|].
    rewrite segments_cons.
    destruct (match_placeholder (x :: tl)) as [m|] eqn:E.
    + constructor; [reflexivity|]. apply IH. rewrite length_skipn. simpl in Hn. lia.
    + assert (H : Forall (fun seg => contains_placeholder seg = false) (segments tl)).
      { apply IH. simpl in Hn. lia. }
      destruct (segments_head tl) as (seg & more & rest & Es & Et).
      rewrite Es in *. inversion H as [|? ? Hseg Hmore]; subst. simpl.
      constructor; [|assumption]. simpl.
      destruct (match_placeholder (x :: seg)) as [m|] eqn:E'; [|assumption].
      apply (match_placeholder_extend _ rest) in E'. simpl in E'. congruence.
Qed.

Lemma segments_clean (s : str) :
  Forall (fun seg => contains_placeholder seg = false) (segments s).
Proof. now apply (segments_clean_bounded (length s)). Qed.

Lemma word_matches_inner (w word : str) :
  word_matches w word ->
  Forall (fun c => existsb (fun l => eq_ci l c) w = true) word.
Proof.
  induction 1 as [|l c w word Hc _ IH]; constructor.
  - simpl. now rewrite Hc.
  - eapply Forall_impl; [|exact IH]. simpl. intros a ->. apply orb_true_r.
Qed.

Lemma placeholder_text_shape (m : str) :
  placeholder_text m ->
  exists inner, m = 123 :: 123 :: inner ++ [125; 125]
                /\ Forall (fun c => is_inner_char c = true) inner.
Proof.
  intros (w1 & word & w2 & -> & H1 & H2 & Hw).
  exists (w1 ++ word ++ w2). split.
  - simpl. now rewrite <- !app_assoc.
  - rewrite !Forall_app. repeat split.
    + rewrite forallb_forall in H1. apply Forall_forall. intros c Hc.
      unfold is_inner_char. now rewrite (H1 c Hc).
    + eapply Forall_impl; [|exact (word_matches_inner _ _ Hw)].
      intros c Hc. unfold is_inner_char. rewrite Hc. apply orb_true_r.
    + rewrite forallb_forall in H2. apply Forall_forall. intros c Hc.
      unfold is_inner_char. now rewrite (H2 c Hc).
Qed.

(** Splitting a text around a part that starts, ends or misses a given
    character. *)
Lemma app_split_head (h : N) (t l1 l2 a b : str) :
  l1 ++ l2 = a ++ (h :: t) ++ b -> ~ In h l1 ->
  exists a', l2 = a' ++ (h :: t) ++ b.
Proof.
  revert a. induction l1 as [|y l1 IH]; intros a E Hn.
  - exists a. exact E.
  - destruct a as [|x a]; simpl in E; injection E as E1 E2.
    + subst. exfalso. apply Hn. now left.
    + apply (IH a E2). intros Hin. apply Hn. now right.
Qed.

Lemma app_split_last (h : N) (t l1 l2 a b : str) :
  l1 ++ l2 = a ++ (t ++ [h]) ++ b -> ~ In h l2 ->
  exists b', l1 = a ++ (t ++ [h]) ++ b'.
Proof.
  intros E Hn. apply (f_equal (@rev N)) in E.
  rewrite !rev_app_distr in E. simpl in E. rewrite <- app_assoc in E.
  apply app_split_head in E; [|now rewrite <- in_rev].
  destruct E as [b' E]. exists (rev b').
  apply (f_equal (@rev N)) in E. rewrite rev_involutive in E. rewrite E.
  rewrite !rev_app_distr. simpl. rewrite ?rev_app_distr, ?rev_involutive. simpl.
  now rewrite <- ?app_assoc.
Qed.

Lemma app_split_prefix (o : N) (m l1 l2 b : str) :
  m ++ b = l1 ++ o :: l2 -> ~ In o m ->
  exists b', b = b' ++ o :: l2 /\ l1 = m ++ b'.
Proof.
  revert l1. induction m as [|x m IH]; intros l1 E Hn.
  - exists l1. auto.
  - destruct l1 as [|y l1]; simpl in E; injection E as E1 E2.
    + subst. exfalso. apply Hn. now left.
    + destruct (IH l1 E2) as (b' & -> & ->); [intros Hin; apply Hn; now right|].
      subst. exists b'. auto.
Qed.

Lemma app_split_elem (o : N) (l1 l2 a m b : str) :
  l1 ++ o :: l2 = a ++ m ++ b -> ~ In o m ->
  (exists a', l2 = a' ++ m ++ b)
  \/ (exists b', l1 = a ++ m ++ b').
Proof.
  revert a. induction l1 as [|y l1 IH]; intros a E Hn.
  - destruct a as [|x a]; simpl in E.
    + symmetry in E. apply (app_split_prefix o m [] l2 b) in E; [|assumption].
      destruct E as (b' & _ & E). right. exists []. simpl.
      destruct m; [reflexivity | discriminate].
    + injection E as _ E. left. now exists a.
  - destruct a as [|x a]; simpl in E.
    + symmetry in E. apply (app_split_prefix o m (y :: l1) l2 b) in E; [|assumption].
      destruct E as (b' & _ & E). right. now exists b'.
    + injection E as E1 E2. destruct (IH a E2 Hn) as [L|[b' R]]; [now left|].
      right. exists b'. simpl. now rewrite E1, R.
Qed.

Lemma inert_split (c : str) :
  inert c = true ->
  Forall (fun x => is_brace x = false) c
  /\ exists c1 o c2, c = c1 ++ o :: c2 /\ is_inner_char o = false /\ is_brace o = false.
Proof.
  unfold inert. intros H. apply andb_true_iff in H as [A B].
  assert (F : Forall (fun x => is_brace x = false) c).
  { rewrite forallb_forall in A. apply Forall_forall. intros x Hx.
    apply negb_true_iff. auto. }
  split; [exact F|].
  apply existsb_exists in B as (o & Ho & Hi).
  apply in_split in Ho as (c1 & c2 & ->).
  exists c1, o, c2. repeat split.
  - now apply negb_true_iff.
  - apply Forall_app in F as [_ F]. now inversion F.
Qed.

Lemma not_in_of_Forall (Q : N -> bool) (x : N) (l : str) :
  Forall (fun c => Q c = false) l -> Q x = true -> ~ In x l.
Proof.
  intros F Hx Hin. rewrite Forall_forall in F. specialize (F x Hin). congruence.
Qed.

(** A placeholder in a text that holds an inert content lies wholly before
    or wholly behind that content. *)
Lemma contains_placeholder_around (x c y : str) :
  inert c = true ->
  contains_placeholder (x ++ c ++ y) = true ->
  contains_placeholder x = true \/ contains_placeholder y = true.
Proof.
  intros Hc H. apply inert_split in Hc as (F & c1 & o & c2 & -> & Hi & Hb).
  apply Forall_app in F as [F1 F2]. inversion F2 as [|? ? _ F2']; subst.
  apply contains_placeholder_iff in H as (a & m & b & E & Hm).
  destruct (placeholder_text_shape m Hm) as (inner & Em & Hinner).
  assert (No : ~ In o m).
  { rewrite Em. simpl. rewrite in_app_iff. simpl.
    unfold is_brace in Hb. apply orb_false_iff in Hb as [B1 B2].
    apply N.eqb_neq in B1, B2.
    intros [?|[?|[Hin|[?|[?|[]]]]]]; try congruence.
    rewrite Forall_forall in Hinner. specialize (Hinner o Hin). congruence. }
  replace (x ++ (c1 ++ o :: c2) ++ y) with ((x ++ c1) ++ o :: (c2 ++ y)) in E
    by (rewrite <- !app_assoc; reflexivity).
  apply app_split_elem in E as [[a' E]|[b' E]]; [| |exact No].
  - right. rewrite Em in E. simpl in E.
    change (123 :: 123 :: (inner ++ [125; 125]) ++ b)
      with ((123 :: 123 :: inner ++ [125; 125]) ++ b) in E.
    apply app_split_head in E as [a'' E].
    + apply contains_placeholder_iff. exists a'', m, b.
      split; [rewrite Em; exact E | exact Hm].
    + apply (not_in_of_Forall is_brace); [assumption | reflexivity].
  - left. rewrite Em in E.
    replace (123 :: 123 :: inner ++ [125; 125])
      with ((123 :: 123 :: inner ++ [125]) ++ [125]) in E
      by (simpl; rewrite <- app_assoc; reflexivity).
    apply app_split_last in E as [b'' E].
    + apply contains_placeholder_iff. exists a, m, b''. split; [|assumption].
      rewrite Em, E. simpl. now rewrite <- !app_assoc.
    + apply (not_in_of_Forall is_brace); [assumption | reflexivity].
Qed.

Lemma join_clean (c : str) (segs : list str) :
  inert c = true ->
  Forall (fun seg => contains_placeholder seg = false) segs ->
  contains_placeholder (join c segs) = false.
Proof.
  intros Hc. induction 1 as [|seg more Hseg Hmore IH]; [reflexivity|].
  destruct more as [|seg' more]; [exact Hseg|].
  rewrite join_cons by discriminate.
  destruct (contains_placeholder (seg ++ c ++ join c (seg' :: more))) eqn:E; [|reflexivity].
  apply contains_placeholder_around in E as [E|E]; [congruence | congruence | assumption].
Qed.

Lemma placeholders_cons (c : N) (tl : str) :
  placeholders (c :: tl) =
  match match_placeholder (c :: tl) with
  | Some m => m :: placeholders (skipn (pred (length m)) tl)
  | None => placeholders tl
  end.
Proof.
  simp placeholders. destruct (match_placeholder (c :: tl)); reflexivity.
Qed.

Lemma weave_cons_head (c : N) (segs fills : list str) :
  segs <> [] -> weave (cons_head c segs) fills = c :: weave segs fills.
Proof.
  destruct segs as [|seg more]; [congruence|]. intros _. simpl.
  destruct fills; reflexivity.
Qed.

(** A template is its segments with its placeholders in the gaps. *)
Lemma template_weave_bounded (n : nat) (s : str) :
  (length s <= n)%nat ->
  weave (segments s) (placeholders s) = s
  /\ Forall placeholder_text (placeholders s)
  /\ length (segments s) = S (length (placeholders s)).
Proof.
  revert s. induction n as [|n IH]; intros s Hn.
  - destruct s; [|simpl in Hn; lia]. simp segments placeholders. simpl. auto.
  - destruct s as [|x tl]; [simp segments placeholders; simpl; auto|].
    rewrite segments_cons, placeholders_cons.
    destruct (match_placeholder (x :: tl)) as [m|] eqn:E.
    + destruct (IH (skipn (pred (length m)) tl)) as (A & B & C).
      { rewrite length_skipn. simpl in Hn. lia. }
      pose proof (match_placeholder_length _ _ E) as Lm.
      apply match_placeholder_sound in E as [Hm E].
      split; [|split].
      * cbn [weave app]. rewrite A, <- (skipn_pred_cons m x tl) by lia. now symmetry.
      * now constructor.
      * simpl. now rewrite C.
    + destruct (IH tl) as (A & B & C); [simpl in Hn; lia|].
      split; [|split].
      * rewrite weave_cons_head by apply segments_not_nil. now rewrite A.
      * exact B.
      * rewrite <- C. destruct (segments tl) as [|seg more] eqn:Es; [|reflexivity].
        now apply segments_not_nil in Es.
Qed.

Lemma template_weave (s : str) :
  weave (segments s) (placeholders s) = s
  /\ Forall placeholder_text (placeholders s)
  /\ length (segments s) = S (length (placeholders s)).
Proof. now apply (template_weave_bounded (length s)). Qed.

Lemma join_weave (c : str) (segs : list str) (ms : list str) :
  length segs = S (length ms) ->
  join c segs = weave segs (map (fun _ => c) ms).
Proof.
  revert ms. induction segs as [|seg more IH]; intros ms H; [discriminate|].
  destruct more as [|seg' more'].
  - destruct ms; [|discriminate]. simpl. now rewrite app_nil_r.
  - destruct ms as [|m ms]; [discriminate|].
    rewrite join_cons by discriminate. cbn [map weave].
    rewrite (IH ms) by (simpl in *; lia). reflexivity.
Qed.

(** The replace call on any template and a content without a dollar
    sign. *)
Lemma replace_placeholder_verbatim (T C : str) :
  no_dollar C = true ->
  replace_placeholder T C = join C (segments T)
  /\ (inert C = true -> contains_placeholder (replace_placeholder T C) = false).
Proof.
  intros Hd.
  assert (E : replace_placeholder T C = join C (segments T)).
  { unfold replace_placeholder. now apply (replace_from_join C Hd (length T)). }
  split; [exact E|].
  intros Hi. rewrite E. apply join_clean; [assumption | apply segments_clean].
Qed.

(** C1, amended.  The template is its text between the placeholders with
    the placeholders in the gaps.  For a content without a dollar sign the
    rendered prompt is that same text with the content, character for
    character, in every gap, and the text between the placeholders holds no
    placeholder itself.  The result as a whole is free of placeholders
    whenever the content cannot take part in one, that is, it has no brace
    and has a character that is neither white space nor a letter of the
    word. *)
Theorem renderPrompt_replaces_every_placeholder
    (settings : TitleGeneratorSettings) (C : str) :
  let T := prompt_template settings in
  no_dollar C = true ->
  weave (segments T) (placeholders T) = T
  /\ Forall placeholder_text (placeholders T)
  /\ renderPrompt settings C = weave (segments T) (map (fun _ => C) (placeholders T))
  /\ Forall (fun seg => contains_placeholder seg = false) (segments T)
  /\ (inert C = true -> contains_placeholder (renderPrompt settings C) = false).
Proof.
  intros T Hd. unfold renderPrompt. fold T.
  destruct (replace_placeholder_verbatim T C Hd) as [A B].
  destruct (template_weave T) as (W1 & W2 & W3).
  split; [exact W1|]. split; [exact W2|]. split.
  - rewrite A. now apply join_weave.
  - split; [apply segments_clean | exact B].
Qed.

Lemma renderPrompt_replaces_every_placeholder_witness :
  no_dollar (js "Meeting notes, 3 May") = true
  /\ placeholders (prompt_template DEFAULT_SETTINGS) = [js "{{content}}"]
  /\ renderPrompt DEFAULT_SETTINGS (js "Meeting notes, 3 May") =
       weave (segments (prompt_template DEFAULT_SETTINGS)) [js "Meeting notes, 3 May"]
  /\ contains_placeholder (renderPrompt DEFAULT_SETTINGS (js "Meeting notes, 3 May")) = false.
Proof.
  assert (H : no_dollar (js "Meeting notes, 3 May") = true) by reflexivity.
  destruct (renderPrompt_replaces_every_placeholder DEFAULT_SETTINGS
              (js "Meeting notes, 3 May") H) as (_ & _ & A & _ & B).
  split; [exact H|]. split; [reflexivity|]. split; [exact A|]. apply B. reflexivity.
Defined.

(** C1 as stated fails: a placeholder in the content is put into the
    result like any other text and stays there. *)
Lemma renderPrompt_keeps_placeholder_of_content :
  contains_placeholder (renderPrompt DEFAULT_SETTINGS (js "{{content}}")) = true.
Proof. vm_compute. reflexivity. Qed.

(** So does a placeholder that only the substitution puts together. *)
Example renderPrompt_assembles_placeholder :
  replace_placeholder (js "{{{{content}}content}}") [] = js "{{content}}".
Proof. vm_compute. reflexivity. Qed.

(** With a dollar sign the content is not copied as it is: the patterns of
    the replace call are read in it. *)
Example renderPrompt_reads_dollar_patterns :
  replace_placeholder (js "Title for: {{content}}") (js "a $$5 bill, $& and more")
  = js "Title for: a $5 bill, {{content}} and more".
Proof. vm_compute. reflexivity. Qed.

(** * Effects of the clients and of the orchestrator *)

Section Emits.

Variable Q : event -> Prop.

Lemma emits_ret {A} (a : A) : emits Q (ret a).
Proof. intros w. split; [reflexivity|]. exists []. now rewrite app_nil_r. Qed.

Lemma emits_throw {A} (e : js_error) : emits Q (@throw A e).
Proof. intros w. split; [reflexivity|]. exists []. now rewrite app_nil_r. Qed.

Lemma emits_await {A} (o : Outcome A) : emits Q (await o).
Proof. intros w. split; [reflexivity|]. exists []. now rewrite app_nil_r. Qed.

Lemma emits_external {A} (ev : event) (answer : list event -> Outcome A) :
  Q ev -> emits Q (external ev answer).
Proof. intros H w. split; [reflexivity|]. exists [ev]. auto. Qed.

Lemma emits_bind {A B} (m : M A) (k : A -> M B) :
  emits Q m -> (forall a, emits Q (k a)) -> emits Q (bind m k).
Proof.
  intros Hm Hk w. unfold bind. destruct (Hm w) as (S1 & new1 & L1 & F1).
  destruct (m w) as [[a|e] w1]; simpl in *.
  - destruct (Hk a w1) as (S2 & new2 & L2 & F2). split; [congruence|].
    exists (new1 ++ new2). rewrite L2, L1, app_assoc. split; [reflexivity|].
    now apply Forall_app.
  - split; [assumption|]. now exists new1.
Qed.

Lemma emits_try_catch {A} (m : M A) (h : js_error -> M A) :
  emits Q m -> (forall e, emits Q (h e)) -> emits Q (try_catch m h).
Proof.
  intros Hm Hh w. unfold try_catch. destruct (Hm w) as (S1 & new1 & L1 & F1).
  destruct (m w) as [[a|e] w1]; simpl in *.
  - split; [assumption|]. now exists new1.
  - destruct (Hh e w1) as (S2 & new2 & L2 & F2). split; [congruence|].
    exists (new1 ++ new2). rewrite L2, L1, app_assoc. split; [reflexivity|].
    now apply Forall_app.
Qed.

Lemma emits_ensureClient (settings : TitleGeneratorSettings) :
  emits Q (ensureClient settings).
Proof.
  intros w. unfold ensureClient. destruct (openaiClient w); simpl;
    (split; [reflexivity|]; exists []; now rewrite app_nil_r).
Qed.

End Emits.

Lemma emits_weaken {A} (Q R : event -> Prop) (m : M A) :
  (forall ev, Q ev -> R ev) -> emits Q m -> emits R m.
Proof.
  intros H Hm w. destruct (Hm w) as (S1 & new & L & F). split; [assumption|].
  exists new. split; [assumption|]. eapply Forall_impl; eauto.
Qed.

Create HintDb emits.
#[local] Hint Resolve emits_ret emits_throw emits_await emits_external emits_bind
  emits_try_catch emits_ensureClient : emits.

Lemma callFireworks_emits (P : Platform) (settings : TitleGeneratorSettings) (prompt : str) :
  emits discreet_call (callFireworks P settings prompt).
Proof.
  unfold callFireworks.
  destruct (trim (fireworksModel settings)) as [|m model]; [auto with emits|].
  destruct (trim (fireworksApiKey settings)) as [|k key]; [auto with emits|].
  apply emits_bind.
  - apply emits_external. split; reflexivity.
  - intros res. destruct (res_ok res); simpl; auto 6 with emits.
Qed.

Lemma callOpenAI_emits (P : Platform) (settings : TitleGeneratorSettings) (prompt : str) :
  emits discreet_call (callOpenAI P settings prompt).
Proof.
  unfold callOpenAI. apply emits_bind; [auto with emits|]. intros key.
  destruct (useCompletionsEndpoint P (openai_model settings));
    (apply emits_bind; [apply emits_external; split; reflexivity | auto with emits]).
Qed.

(** C3.  Whatever the settings and the prompt, every request that
    [callFireworks] sends carries [store: false] in its body. *)
Theorem callFireworks_never_stores
    (P : Platform) (settings : TitleGeneratorSettings) (prompt : str) (w : World) :
  exists new,
    log (snd (callFireworks P settings prompt w)) = log w ++ new
    /\ Forall no_retention new.
Proof.
  destruct (callFireworks_emits P settings prompt w) as (_ & new & L & F).
  exists new. split; [exact L|]. eapply Forall_impl; [|exact F]. now intros ev [_ H].
Qed.

(** With a model and a key the request is sent, so the statement above is
    about an actual request. *)
Lemma callFireworks_sends (P : Platform) (settings : TitleGeneratorSettings) (prompt : str) (w : World) :
  trim (fireworksModel settings) <> [] ->
  trim (fireworksApiKey settings) <> [] ->
  log (snd (callFireworks P settings prompt w)) =
    log w ++ [Fetch (fireworks_request (trim (fireworksModel settings))
                       (trim (fireworksApiKey settings)) prompt)].
Proof.
  intros Hm Hk. unfold callFireworks.
  destruct (trim (fireworksModel settings)) as [|m model]; [congruence|].
  destruct (trim (fireworksApiKey settings)) as [|k key]; [congruence|].
  unfold bind, external. cbn [fst snd].
  destruct (fetch P (log w) _) as [res|e]; [|reflexivity].
  destruct (res_ok res); simpl.
  - unfold bind, await. destruct (res_json res); [|reflexivity].
    destruct (extract_output _ _); reflexivity.
  - unfold bind, try_catch, await, throw, ret. destruct (res_text res); reflexivity.
Qed.

(** The guarded block of [generateTitle] shows no notice and leaves the
    status bar alone. *)
Lemma generateTitle_try_emits
    (P : Platform) (settings : TitleGeneratorSettings) (file : TFile) (content : str) :
  emits (fun ev => is_outside_call ev = true) (generateTitle_try P settings file content).
Proof.
  unfold generateTitle_try. apply emits_bind.
  - apply (emits_weaken discreet_call).
    + intros ev [H _]. now destruct ev.
    + destruct (provider settings); [|apply callFireworks_emits].
      destruct (openAiApiKey settings); [auto with emits | apply callOpenAI_emits].
  - intros raw. destruct (removeInvalidFileNameChars _); auto with emits.
Qed.

Lemma notices_app (a b : list event) : notices (a ++ b) = notices a ++ notices b.
Proof.
  induction a as [|ev a IH]; [reflexivity|].
  destruct ev; cbn [app notices]; rewrite IH; reflexivity.
Qed.

Lemma notices_quiet (l : list event) :
  Forall (fun ev => is_outside_call ev = true) l -> notices l = [].
Proof.
  induction 1 as [|ev l Hev _ IH]; [reflexivity|].
  destruct ev; try discriminate; exact IH.
Qed.

Lemma reads_app (a b : list event) : reads (a ++ b) = reads a ++ reads b.
Proof.
  induction a as [|ev a IH]; [reflexivity|].
  destruct ev; cbn [app reads]; rewrite IH; reflexivity.
Qed.

Lemma reads_quiet (l : list event) :
  Forall (fun ev => is_outside_call ev = true) l -> reads l = [].
Proof.
  induction 1 as [|ev l Hev _ IH]; [reflexivity|].
  destruct ev; try discriminate; exact IH.
Qed.

Lemma list_max_fresh (bar : list (nat * str)) :
  Forall (fun it => Nat.eqb (fst it) (S (list_max (map fst bar))) = false) bar.
Proof.
  assert (H : Forall (fun k => (k <= list_max (map fst bar))%nat) (map fst bar)).
  { now apply list_max_le. }
  rewrite Forall_map in H. eapply Forall_impl; [|exact H].
  intros it Hit. apply Nat.eqb_neq. simpl in Hit. lia.
Qed.

Lemma filter_map_fresh (item : nat) (text : str) (bar : list (nat * str)) :
  Forall (fun it => Nat.eqb (fst it) item = false) bar ->
  filter (fun it => negb (Nat.eqb (fst it) item))
    (map (fun it => if Nat.eqb (fst it) item then (fst it, snd it ++ text) else it) bar) = bar.
Proof.
  induction 1 as [|[i t] bar Hit _ IH]; [reflexivity|].
  cbn [map filter fst snd] in *. rewrite Hit. cbn [fst negb]. rewrite Hit.
  cbn [negb]. now rewrite IH.
Qed.

(** Removing the indicator undoes what showing it did to the status bar. *)
Lemma indicator_removed (w w' : World) :
  statusBar w' = statusBar (indicator_shown w) ->
  statusBar (snd (remove (S (list_max (map fst (statusBar w)))) w')) = statusBar w.
Proof.
  intros E. unfold remove. cbn [snd statusBar]. rewrite E.
  unfold indicator_shown, bind, addStatusBarItem, createEl. cbn [snd statusBar].
  rewrite map_app, filter_app. cbn [map filter fst snd].
  rewrite Nat.eqb_refl. cbn [fst]. rewrite Nat.eqb_refl. cbn [negb]. rewrite app_nil_r.
  apply filter_map_fresh, list_max_fresh.
Qed.

Lemma generateTitle_unfold
    (P : Platform) (settings : TitleGeneratorSettings) (file : TFile) (content : str) (w : World) :
  generateTitle P settings file content w =
  try_finally
    (try_catch (generateTitle_try P settings file content) (generateTitle_catch P))
    (remove (S (list_max (map fst (statusBar w)))))
    (indicator_shown w).
Proof. reflexivity. Qed.

Lemma try_finally_remove {A : Type} (m : M A) (item : nat) (w : World) :
  try_finally m (remove item) w = (fst (m w), snd (remove item (snd (m w)))).
Proof. unfold try_finally. destruct (m w). reflexivity. Qed.

Lemma log_remove (item : nat) (w : World) : log (snd (remove item w)) = log w.
Proof. reflexivity. Qed.

(** The guarded block together with its catch block. *)
Lemma guarded_outcome (P : Platform) (m : M unit) (w : World) :
  let guarded := try_catch m (generateTitle_catch P) w in
  fst guarded = Return tt
  /\ log (snd guarded) = log (snd (m w)) ++ failure_report P (fst (m w))
  /\ statusBar (snd guarded) = statusBar (snd (m w)).
Proof.
  unfold try_catch. destruct (m w) as [[[]|err] w2]; cbn [fst snd failure_report].
  - now rewrite app_nil_r.
  - unfold generateTitle_catch, emit, bind, external. cbn [fst snd log statusBar].
    now rewrite <- app_assoc.
Qed.

Lemma generateTitle_outcome
    (P : Platform) (settings : TitleGeneratorSettings) (file : TFile) (content : str) (w : World) :
  let attempt := generateTitle_try P settings file content (indicator_shown w) in
  let final := generateTitle P settings file content w in
  fst final = Return tt
  /\ statusBar (snd final) = statusBar w
  /\ log (snd final) = log (snd attempt) ++ failure_report P (fst attempt)
  /\ notices (log (snd final)) =
       notices (log w) ++ match fst attempt with
                          | Return _ => []
                          | Throw err => [notice_text P err]
                          end.
Proof.
  intros attempt final. subst final.
  rewrite generateTitle_unfold, try_finally_remove. cbn [fst snd].
  destruct (generateTitle_try_emits P settings file content (indicator_shown w))
    as (S1 & new & L1 & F1).
  destruct (guarded_outcome P (generateTitle_try P settings file content) (indicator_shown w))
    as (G1 & G2 & G3).
  fold attempt in S1, L1, G2, G3.
  assert (N1 : notices (log (snd attempt)) = notices (log w)).
  { rewrite L1, notices_app, (notices_quiet new F1), app_nil_r. reflexivity. }
  split; [exact G1|]. split; [apply indicator_removed; congruence|].
  rewrite log_remove, G2. split; [reflexivity|].
  rewrite notices_app, N1. f_equal.
  destruct (fst attempt) as [[]|err]; reflexivity.
Qed.

(** C7.  However the guarded block ends, [generateTitle] itself returns
    normally, the status bar is as it was before the call, and the log gets,
    behind what the block did, the error report of exactly one notification
    if the block threw and nothing if it did not; the block shows no
    notification of its own. *)
Theorem generateTitle_always_settles
    (P : Platform) (settings : TitleGeneratorSettings) (file : TFile) (content : str) (w : World) :
  let attempt := generateTitle_try P settings file content (indicator_shown w) in
  let final := generateTitle P settings file content w in
  fst final = Return tt
  /\ statusBar (snd final) = statusBar w
  /\ log (snd final) = log (snd attempt) ++ failure_report P (fst attempt)
  /\ notices (log (snd final)) =
       notices (log w) ++ match fst attempt with
                          | Return _ => []
                          | Throw err => [notice_text P err]
                          end.
Proof. apply generateTitle_outcome. Qed.

(** C5.  With the OpenAI provider and no API key, [generateTitle] returns
    normally; all it leaves behind is the logged error and one notification
    that asks for the key: no provider was called and the client handle was
    not touched. *)
Theorem generateTitle_without_key
    (P : Platform) (settings : TitleGeneratorSettings) (file : TFile) (content : str) (w : World) :
  provider settings = openai ->
  openAiApiKey settings = [] ->
  generateTitle P settings file content w =
    (Return tt,
     {| log := log w ++ [ConsoleError MISSING_KEY; Notice (notice_text P MISSING_KEY)];
        statusBar := statusBar w;
        openaiClient := openaiClient w |}).
Proof.
  intros Hp Hk.
  pose proof (indicator_removed w
    {| log := log w ++ [ConsoleError MISSING_KEY; Notice (notice_text P MISSING_KEY)];
       statusBar := statusBar (indicator_shown w);
       openaiClient := openaiClient w |} eq_refl) as R.
  rewrite generateTitle_unfold.
  unfold try_finally, try_catch, generateTitle_try. rewrite Hp, Hk.
  unfold bind at 1. unfold throw at 1.
  unfold generateTitle_catch, emit, bind, external. cbn [fst snd log statusBar openaiClient].
  unfold remove in *. cbn [fst snd log statusBar openaiClient] in *.
  rewrite R. rewrite <- app_assoc. reflexivity.
Qed.

Lemma trim_blank (s : str) : forallb is_ws s = true -> trim s = [].
Proof.
  intros H. unfold trim.
  replace (dropWhile is_ws s) with (@nil N); [reflexivity|].
  induction s as [|c tl IH]; [reflexivity|].
  simpl in *. apply andb_true_iff in H as [-> H]. auto.
Qed.

Lemma DEFAULT_MODEL_ascii : Forall (fun c => c < 128) DEFAULT_MODEL.
Proof. unfold DEFAULT_MODEL. repeat (constructor; [reflexivity|]). constructor. Qed.

(** C9.  When the configured OpenAI model is empty or blank, the request
    names the default model, and since no marker of the legacy models occurs
    in that name the request goes to the chat endpoint. *)
Theorem callOpenAI_default_model
    (P : Platform) (settings : TitleGeneratorSettings) (prompt : str) (w : World) :
  lowers_ascii P ->
  forallb is_ws (openAiModel settings) = true ->
  openai_model settings = DEFAULT_MODEL
  /\ useCompletionsEndpoint P (openai_model settings) = false
  /\ ch_model (chat_request settings prompt) = DEFAULT_MODEL
  /\ log (snd (callOpenAI P settings prompt w)) =
       log w ++ [ChatCreate (client_key settings w) (chat_request settings prompt)].
Proof.
  intros HP Hm.
  assert (E : openai_model settings = DEFAULT_MODEL).
  { unfold openai_model. now rewrite trim_blank. }
  assert (U : useCompletionsEndpoint P (openai_model settings) = false).
  { rewrite E. unfold useCompletionsEndpoint.
    rewrite (HP DEFAULT_MODEL DEFAULT_MODEL_ascii). vm_compute. reflexivity. }
  repeat split; [exact E | exact U | exact E |].
  unfold callOpenAI. rewrite U.
  unfold bind, ensureClient, client_key, external.
  destruct (openaiClient w) as [key|]; cbn [fst snd log];
    destruct (chatCreate P _ _ _); reflexivity.
Qed.

(** The fallback the extraction is meant to have: a body with neither
    member gives the empty text. *)
Lemma extract_output_missing (numberToString : Q -> str) (fields : list (str * json)) :
  own_property fields (js "output_text") = None ->
  own_property fields (js "output") = None ->
  extract_output numberToString (JObj fields) = Return [].
Proof.
  intros H1 H2. unfold extract_output. cbn [get_named obind].
  rewrite H1. cbn [nullish_or call_toString element_string obind].
  change (trim []) with (@nil N). cbv zeta. cbn [get_named obind].
  rewrite H2. reflexivity.
Qed.

Lemma notice_text_differs (P : Platform) (why : type_error) :
  notice_text P (TypeError why) <> notice_text P EMPTY_TITLE.
Proof.
  unfold notice_text. intros H. apply app_inv_head in H.
  do 2 apply app_inv_head in H.
  unfold error_string, prefixed in H. destruct (engineMessage P why); discriminate.
Qed.

(** C4 fails on the code.  When the network answers a request with a
    successful status and the body [null], [callFireworks] throws a type
    error at the first read of the body, and [generateTitle] reports that
    error, not the empty title. *)
Theorem callFireworks_null_body
    (P : Platform) (settings : TitleGeneratorSettings) (file : TFile) (content : str) (w : World) :
  provider settings = fireworks ->
  trim (fireworksModel settings) <> [] ->
  trim (fireworksApiKey settings) <> [] ->
  (forall history request, fetch P history request = Return (ok_response JNull)) ->
  extract_output (numberToString P) JNull = Throw (TypeError (ReadOfNull (js "output_text")))
  /\ fst (callFireworks P settings (renderPrompt settings content) w) =
       Throw (TypeError (ReadOfNull (js "output_text")))
  /\ notices (log (snd (generateTitle P settings file content w))) =
       notices (log w) ++ [notice_text P (TypeError (ReadOfNull (js "output_text")))]
  /\ notice_text P (TypeError (ReadOfNull (js "output_text"))) <> notice_text P EMPTY_TITLE.
Proof.
  intros Hp Hm Hk Hf.
  assert (C : forall w', fst (callFireworks P settings (renderPrompt settings content) w') =
                         Throw (TypeError (ReadOfNull (js "output_text")))).
  { intros w'. unfold callFireworks.
    destruct (trim (fireworksModel settings)) as [|m model]; [congruence|].
    destruct (trim (fireworksApiKey settings)) as [|k key]; [congruence|].
    unfold bind, external. rewrite Hf. reflexivity. }
  split; [reflexivity|]. split; [apply C|]. split; [|apply notice_text_differs].
  destruct (generateTitle_outcome P settings file content w) as (_ & _ & _ & N).
  cbv zeta in N. rewrite N. f_equal.
  unfold generateTitle_try. rewrite Hp. unfold bind at 1.
  specialize (C (indicator_shown w)).
  destruct (callFireworks P settings (renderPrompt settings content) (indicator_shown w))
    as [[raw|err] w2]; cbn [fst] in *; [discriminate|].
  now injection C as ->.
Qed.

(** * Bulk dispatch *)

Lemma reads_generateTitle
    (P : Platform) (settings : TitleGeneratorSettings) (file : TFile) (content : str) (w : World) :
  reads (log (snd (generateTitle P settings file content w))) = reads (log w).
Proof.
  destruct (generateTitle_outcome P settings file content w) as (_ & _ & L & _).
  cbv zeta in L. rewrite L.
  destruct (generateTitle_try_emits P settings file content (indicator_shown w))
    as (_ & new & L1 & F1).
  rewrite L1, !reads_app, (reads_quiet new F1), app_nil_r.
  change (log (indicator_shown w)) with (log w).
  destruct (fst _) as [[]|err]; simpl; now rewrite app_nil_r.
Qed.

(** A document that can be read is processed to the end, and the call
    returns normally. *)
Lemma generateTitleFromFile_settles
    (P : Platform) (settings : TitleGeneratorSettings) (file : TFile) (w : World) :
  (exists content, cachedRead P (log w) file = Return content) ->
  fst (generateTitleFromFile P settings file w) = Return tt
  /\ reads (log (snd (generateTitleFromFile P settings file w))) = reads (log w) ++ [file].
Proof.
  intros [content E]. unfold generateTitleFromFile, bind, external. rewrite E.
  split.
  - apply generateTitle_outcome.
  - rewrite reads_generateTitle. cbn [log]. now rewrite reads_app.
Qed.

Lemma pMap_cons_ok {A B : Type} (f : A -> M B) (item : A) (more : list A)
    (b : B) (bs : list B) (w w1 w2 : World) :
  f item w = (Return b, w1) ->
  pMap more f w1 = (Return bs, w2) ->
  pMap (item :: more) f w = (Return (b :: bs), w2).
Proof. intros E1 E2. cbn [pMap]. unfold bind. now rewrite E1, E2. Qed.

Lemma pMap_sequence
    (P : Platform) (settings : TitleGeneratorSettings) (tFiles : list TFile) (w : World) :
  (forall history file, In file tFiles -> exists content, cachedRead P history file = Return content) ->
  fst (pMap tFiles (generateTitleFromFile P settings) w) = Return (map (fun _ => tt) tFiles)
  /\ snd (pMap tFiles (generateTitleFromFile P settings) w) =
       fold_left (fun w' file => snd (generateTitleFromFile P settings file w')) tFiles w
  /\ reads (log (snd (pMap tFiles (generateTitleFromFile P settings) w))) =
       reads (log w) ++ tFiles.
Proof.
  revert w. induction tFiles as [|file more IH]; intros w Hr.
  - cbn. now rewrite app_nil_r.
  - destruct (generateTitleFromFile_settles P settings file w) as [R1 R2];
      [apply Hr; now left|].
    destruct (generateTitleFromFile P settings file w) as [r w1] eqn:E1.
    cbn [fst snd] in R1, R2. subst r.
    destruct (IH w1) as (I1 & I2 & I3); [intros h f Hf; apply Hr; now right|].
    destruct (pMap more (generateTitleFromFile P settings) w1) as [r w2] eqn:E2.
    cbn [fst snd] in I1, I2, I3. subst r.
    rewrite (pMap_cons_ok _ _ _ _ _ _ _ _ E1 E2).
    cbn [fst snd fold_left map]. rewrite E1. cbn [snd].
    split; [reflexivity|]. split; [exact I2|].
    rewrite I3, R2, <- app_assoc. reflexivity.
Qed.

(** C8, amended.  When every selected document can be read, the bulk
    action processes the documents one after the other in the order of the
    selection, each to its end before the next is started, and whatever
    fails inside [generateTitle] for one document leaves the later ones to
    be processed all the same. *)
Theorem generateTitles_in_sequence
    (P : Platform) (settings : TitleGeneratorSettings) (files : list TAbstractFile)
    (run : M (list unit)) (w : World) :
  generateTitles P settings files = Some run ->
  (forall history file, In file (onlyFiles files) ->
     exists content, cachedRead P history file = Return content) ->
  fst (run w) = Return (map (fun _ => tt) (onlyFiles files))
  /\ snd (run w) =
       fold_left (fun w' file => snd (generateTitleFromFile P settings file w'))
         (onlyFiles files) w
  /\ reads (log (snd (run w))) = reads (log w) ++ onlyFiles files.
Proof.
  unfold generateTitles. intros Hrun Hr.
  destruct (onlyFiles files) as [|file more] eqn:E; [discriminate|].
  injection Hrun as <-. exact (pMap_sequence P settings (file :: more) w Hr).
Qed.

(** A document that cannot be read ends the dispatch: the rejection of the
    read is the outcome of the whole, and the documents behind it leave no
    trace in the log. *)
Lemma pMap_stops_at_unreadable
    (P : Platform) (settings : TitleGeneratorSettings) (file : TFile) (more : list TFile)
    (err : js_error) (w : World) :
  cachedRead P (log w) file = Throw err ->
  fst (pMap (file :: more) (generateTitleFromFile P settings) w) = Throw err
  /\ log (snd (pMap (file :: more) (generateTitleFromFile P settings) w)) =
       log w ++ [CachedRead file].
Proof.
  intros E.
  assert (R : generateTitleFromFile P settings file w =
              (Throw err, {| log := log w ++ [CachedRead file];
                             statusBar := statusBar w;
                             openaiClient := openaiClient w |})).
  { unfold generateTitleFromFile, bind, external. now rewrite E. }
  cbn [pMap]. unfold bind at 1 3. rewrite R. split; reflexivity.
Qed.

(** C8 as stated fails: a document that cannot be read rejects the whole
    action, and the document behind it is never looked at. *)
Lemma generateTitles_stops_at_unreadable :
  exists run,
    generateTitles unreadable_platform openai_settings [AFile gone; AFile kept] = Some run
    /\ fst (run empty_world) = Throw (Rejection (js "Error: ENOENT"))
    /\ log (snd (run empty_world)) = [CachedRead gone].
Proof. eexists. split; [reflexivity|]. vm_compute. split; reflexivity. Qed.

Lemma generateTitles_in_sequence_witness :
  exists run,
    generateTitles sample_platform DEFAULT_SETTINGS [AFile gone; AFile kept] = Some run
    /\ fst (run empty_world) = Return [tt; tt]
    /\ reads (log (snd (run empty_world))) = [gone; kept].
Proof.
  eexists. split; [reflexivity|].
  destruct (generateTitles_in_sequence sample_platform DEFAULT_SETTINGS
              [AFile gone; AFile kept] _ empty_world eq_refl) as (A & _ & B).
  - intros history file _. now exists (js "Some notes.").
  - split; [exact A | exact B].
Defined.

(** * The rename target *)

Lemma forallb_rev (q : N -> bool) (s : str) : forallb q (rev s) = forallb q s.
Proof.
  induction s as [|c tl IH]; [reflexivity|].
  simpl. rewrite forallb_app, IH. simpl. rewrite andb_true_r. apply andb_comm.
Qed.

Lemma takeWhileEnd_all (q : N -> bool) (s : str) : forallb q (takeWhileEnd q s) = true.
Proof. unfold takeWhileEnd. rewrite forallb_rev. apply takeWhile_all. Qed.

Lemma firstn_dropWhileEnd (q : N -> bool) (s : str) :
  firstn (length s - length (takeWhileEnd q s)) s = dropWhileEnd q s.
Proof.
  pose proof (dropWhileEnd_prefix q s) as E.
  remember (dropWhileEnd q s) as D eqn:HD.
  remember (takeWhileEnd q s) as T eqn:HT.
  clear HD HT. subst s.
  rewrite length_app, Nat.add_sub, firstn_app, Nat.sub_diag, firstn_all.
  simpl. apply app_nil_r.
Qed.

Lemma ends_last (q : N -> bool) (s : str) :
  s <> [] -> exists d c, s = d ++ [c] /\ ends q s = q c.
Proof.
  intros Hs. destruct (rev s) as [|c r] eqn:E.
  - apply (f_equal (@rev N)) in E. rewrite rev_involutive in E. contradiction.
  - exists (rev r), c. split.
    + apply (f_equal (@rev N)) in E. now rewrite rev_involutive in E.
    + unfold ends. now rewrite E.
Qed.

Lemma ends_app (q : N -> bool) (a b : str) : b <> [] -> ends q (a ++ b) = ends q b.
Proof.
  intros Hb. unfold ends. rewrite rev_app_distr. apply starts_app.
  intros E. apply (f_equal (@rev N)) in E. rewrite rev_involutive in E. contradiction.
Qed.

Lemma split_ext_app (b : str) : fst (split_ext b) ++ snd (split_ext b) = b.
Proof.
  unfold split_ext. destruct (Nat.eqb _ _); [apply app_nil_r|].
  destruct (firstn _ b) as [|c stem] eqn:E; [apply app_nil_r|].
  destruct (str_eqb b [46; 46]); [apply app_nil_r|].
  cbn [fst snd]. rewrite <- E. rewrite length_firstn.
  set (k := (length b - length (takeWhileEnd (fun c0 => negb (is_dot c0)) b) - 1)%nat).
  replace (Nat.min k (length b)) with k by lia. apply firstn_skipn.
Qed.

Lemma split_ext_suffix (b : str) : exists front, b = front ++ snd (split_ext b).
Proof. exists (fst (split_ext b)). symmetry. apply split_ext_app. Qed.

Lemma front_dir (front : str) :
  front = [] \/ (exists d, d <> [] /\ front = d ++ [47]) ->
  match match front with [] => [] | _ => removelast front end with
  | [] => []
  | d => d ++ [47]
  end = front.
Proof.
  intros [->|(d & Hd & ->)]; [reflexivity|].
  destruct d as [|x d]; [congruence|].
  change ((x :: d) ++ [47]) with (x :: (d ++ [47])) at 1.
  cbv iota. change (x :: (d ++ [47])) with ((x :: d) ++ [47]).
  rewrite removelast_last. reflexivity.
Qed.

Lemma path_parse_ext (p : str) :
  ext (path_parse p) = snd (split_ext (base (path_parse p))).
Proof. destruct p; reflexivity. Qed.

(** The parts of a clean path. *)
Lemma path_parse_clean (p : str) :
  clean_path p = true ->
  p = dir_prefix (path_parse p) ++ base (path_parse p)
  /\ base (path_parse p) = name (path_parse p) ++ ext (path_parse p)
  /\ forallb (fun c => negb (is_slash c)) (base (path_parse p)) = true.
Proof.
  unfold clean_path. destruct p as [|first rest]; [discriminate|].
  intros H. apply andb_true_iff in H as [H _]. apply andb_true_iff in H as [H _].
  apply andb_true_iff in H as [Hs He].
  apply negb_true_iff in Hs, He.
  set (p := first :: rest) in *.
  assert (Ep : path_parse p =
    let b := takeWhileEnd (fun c => negb (is_slash c)) p in
    let front := dropWhileEnd (fun c => negb (is_slash c)) p in
    {| root := [];
       dir := match front with [] => [] | _ => removelast front end;
       base := b; ext := snd (split_ext b); name := fst (split_ext b) |}).
  { unfold path_parse, p. fold p. simpl in Hs. rewrite Hs.
    rewrite (dropWhileEnd_id is_slash p He). cbv zeta.
    rewrite firstn_dropWhileEnd. reflexivity. }
  pose proof (dropWhileEnd_prefix (fun c => negb (is_slash c)) p) as Dp.
  pose proof (dropWhileEnd_ends (fun c => negb (is_slash c)) p) as De.
  remember (dropWhileEnd (fun c => negb (is_slash c)) p) as front eqn:Hfr.
  remember (takeWhileEnd (fun c => negb (is_slash c)) p) as b eqn:Hb.
  assert (Hfront : front = [] \/ exists d, d <> [] /\ front = d ++ [47]).
  { destruct front as [|x front']; [now left|]. right.
    destruct (ends_last (fun c => negb (is_slash c)) (x :: front')) as (d & c & Ed & Ec);
      [discriminate|].
    rewrite De in Ec. symmetry in Ec. apply negb_false_iff in Ec.
    apply N.eqb_eq in Ec. subst c. exists d. split; [|exact Ed].
    intros ->. simpl in Ed. injection Ed as -> ->.
    rewrite Dp in Hs. simpl in Hs. discriminate. }
  assert (Dfront : dir_prefix (path_parse p) = front).
  { rewrite Ep. exact (front_dir front Hfront). }
  rewrite Dfront, Ep. cbn [base name ext].
  split; [exact Dp|]. split.
  - symmetry. apply split_ext_app.
  - rewrite Hb. apply takeWhileEnd_all.
Qed.

Lemma no_double_none (q : N -> bool) (s : str) :
  Forall (fun c => q c = false) s -> no_double q s = true.
Proof.
  induction 1 as [|c tl Hc _ IH]; [reflexivity|].
  simpl. now rewrite Hc, IH.
Qed.

Lemma starts_none (q : N -> bool) (s : str) :
  Forall (fun c => q c = false) s -> starts q s = false.
Proof. destruct 1; [reflexivity | assumption]. Qed.

Lemma no_double_app (q : N -> bool) (a b : str) :
  no_double q a = true -> Forall (fun c => q c = false) b -> no_double q (a ++ b) = true.
Proof.
  intros Ha Hb. induction a as [|c tl IH]; [now apply no_double_none|].
  simpl in *. apply andb_true_iff in Ha as [H1 H2]. rewrite (IH H2), andb_true_r.
  destruct tl as [|d tl']; [|exact H1].
  simpl. rewrite (starts_none q b Hb). now rewrite andb_false_r.
Qed.

Lemma map_id_on (f : N -> N) (s : str) : Forall (fun c => f c = c) s -> map f s = s.
Proof. induction 1 as [|c tl Hc _ IH]; [reflexivity|]. simpl. now rewrite Hc, IH. Qed.

(** [normalizePath] on a text in the host's normal shape, and on such a
    text behind the one slash that an empty directory leaves. *)
Section Normal.

Variable P : Platform.
Variables pre tail : str.

Hypothesis pre_slashes : Forall (fun c => is_separator c = true -> c = 47) pre.
Hypothesis pre_single : no_double is_separator pre = true.
Hypothesis pre_start : starts is_slash pre = false.
Hypothesis pre_plain : Forall (fun c => replace_nbsp c = c) pre.
Hypothesis tail_not_nil : tail <> [].
Hypothesis tail_separators : Forall (fun c => is_separator c = false) tail.
Hypothesis tail_plain : Forall (fun c => replace_nbsp c = c) tail.

Lemma tail_slashes : Forall (fun c => is_slash c = false) tail.
Proof.
  eapply Forall_impl; [|exact tail_separators].
  intros c Hc. unfold is_separator in Hc. now apply orb_false_iff in Hc.
Qed.

Lemma tail_end : ends is_slash tail = false.
Proof.
  destruct (ends_last is_slash tail tail_not_nil) as (d & c & E & ->).
  pose proof tail_slashes as F. rewrite E in F. apply Forall_app in F as [_ F].
  now inversion F.
Qed.

Lemma collapse_normal :
  collapse_runs is_separator 47 false (pre ++ tail) = pre ++ tail.
Proof.
  apply collapse_id; [discriminate | now apply no_double_app |].
  apply Forall_app. split; [exact pre_slashes|].
  eapply Forall_impl; [|exact tail_separators]. intros c Hc. congruence.
Qed.

Lemma rooted_nonempty (s : str) : s <> [] -> match s with [] => [47] | _ => s end = s.
Proof. destruct s; congruence. Qed.

Lemma normalizePath_normal :
  pre <> [] -> normalizePath P (pre ++ tail) = normalizeNFC P (pre ++ tail).
Proof.
  intros Hpre. unfold normalizePath. rewrite collapse_normal.
  unfold strip_ends. rewrite dropWhile_id by (rewrite starts_app; assumption).
  rewrite strip_trailing_id by (rewrite ends_app; [apply tail_end | exact tail_not_nil]).
  rewrite rooted_nonempty by (destruct pre; [congruence | discriminate]).
  rewrite map_id_on; [reflexivity|]. apply Forall_app. now split.
Qed.

Lemma normalizePath_rootless :
  normalizePath P ([47] ++ tail) = normalizeNFC P tail.
Proof.
  unfold normalizePath. cbn [app collapse_runs].
  change (is_separator 47) with true. cbv iota.
  replace (collapse_runs is_separator 47 true tail) with tail.
  - unfold strip_ends. cbn [dropWhile]. change (is_slash 47) with true. cbv iota.
    rewrite dropWhile_id by apply (starts_none _ _ tail_slashes).
    rewrite strip_trailing_id by apply tail_end.
    rewrite rooted_nonempty by exact tail_not_nil.
    now rewrite map_id_on.
  - symmetry. apply collapse_id.
    + intros _. apply (starts_none _ _ tail_separators).
    + now apply no_double_none.
    + eapply Forall_impl; [|exact tail_separators]. intros c Hc. congruence.
Qed.

End Normal.

Lemma invalid_covers_separators (c : N) : is_invalid_char c = false -> is_separator c = false.
Proof.
  intros H. unfold is_separator.
  destruct (c =? 47) eqn:A; [apply N.eqb_eq in A; subst; discriminate|].
  destruct (c =? 92) eqn:B; [apply N.eqb_eq in B; subst; discriminate|].
  reflexivity.
Qed.

Lemma space_is_plain (c : N) : (is_ws c = true -> c = 32) -> replace_nbsp c = c.
Proof.
  intros H. unfold replace_nbsp.
  destruct (c =? 160) eqn:A; [apply N.eqb_eq in A; subst; now specialize (H eq_refl)|].
  destruct (c =? 8239) eqn:B; [apply N.eqb_eq in B; subst; now specialize (H eq_refl)|].
  reflexivity.
Qed.

Lemma clean_char (c : N) :
  negb (c =? 92) && negb (c =? 160) && negb (c =? 8239) = true ->
  (is_separator c = true -> c = 47) /\ replace_nbsp c = c /\ (is_slash c = false -> is_separator c = false).
Proof.
  intros H. apply andb_true_iff in H as [H H3]. apply andb_true_iff in H as [H1 H2].
  apply negb_true_iff in H1, H2, H3.
  unfold is_separator, replace_nbsp, is_slash. rewrite H1, H2, H3. simpl.
  rewrite orb_false_r. repeat split; auto.
  intros E. now apply N.eqb_eq in E.
Qed.

(** C6, amended.  For a document whose path is in the host's normal shape
    and a provider output whose sanitized form is not empty, the path is its
    directory part, its name and its extension in a row, and the rename
    target is the same directory part and extension with the sanitized title
    in the place of the name, put in Unicode normal form: it is that very
    text whenever normalisation leaves it alone, as it does for the titles
    and paths of plain ASCII. *)
Theorem rename_target_replaces_name (P : Platform) (file : TFile) (raw : str) :
  let parsed := path_parse (path file) in
  let target := dir_prefix parsed ++ sanitize raw ++ ext parsed in
  clean_path (path file) = true ->
  sanitize raw <> [] ->
  path file = dir_prefix parsed ++ name parsed ++ ext parsed
  /\ rename_target P file (sanitize raw) = normalizeNFC P target
  /\ (normalizeNFC P target = target -> rename_target P file (sanitize raw) = target).
Proof.
  intros parsed target Hclean Htitle.
  assert (Main : path file = dir_prefix parsed ++ name parsed ++ ext parsed
                 /\ rename_target P file (sanitize raw) = normalizeNFC P target);
    [|destruct Main as [A B]; split; [exact A|]; split; [exact B | congruence]].
  destruct (path_parse_clean (path file) Hclean) as (Ep & Eb & Hb).
  fold parsed in Ep, Eb, Hb.
  split; [now rewrite <- Eb|].
  assert (Hp : Forall (fun c => negb (c =? 92) && negb (c =? 160) && negb (c =? 8239) = true)
                 (path file)).
  { unfold clean_path in Hclean. destruct (path file); [discriminate|].
    apply andb_true_iff in Hclean as [_ H]. rewrite forallb_forall in H.
    now apply Forall_forall. }
  assert (Hd : no_double is_separator (dir_prefix parsed) = true).
  { unfold clean_path in Hclean. destruct (path file) eqn:E; [discriminate|].
    apply andb_true_iff in Hclean as [H _]. apply andb_true_iff in H as [_ H].
    rewrite Ep in H. now apply no_double_app_l in H. }
  assert (Hs : dir_prefix parsed <> [] -> starts is_slash (dir_prefix parsed) = false).
  { intros Hne. unfold clean_path in Hclean. destruct (path file) eqn:E; [discriminate|].
    apply andb_true_iff in Hclean as [H _]. apply andb_true_iff in H as [H _].
    apply andb_true_iff in H as [H _]. apply negb_true_iff in H.
    rewrite Ep in H. now rewrite starts_app in H. }
  rewrite Ep in Hp. apply Forall_app in Hp as [Hpre Hbase].
  destruct (split_ext_suffix (base parsed)) as [stem Es].
  pose proof (path_parse_ext (path file)) as Ex. fold parsed in Ex. rewrite <- Ex in Es.
  assert (Hext : Forall (fun c => is_separator c = false /\ replace_nbsp c = c) (ext parsed)).
  { rewrite forallb_forall in Hb. rewrite Es in Hbase, Hb.
    apply Forall_app in Hbase as [_ Hbase]. apply Forall_forall. intros c Hc.
    rewrite Forall_forall in Hbase. destruct (clean_char c (Hbase c Hc)) as (_ & A & B).
    split; [|exact A]. apply B. apply negb_true_iff, Hb, in_or_app. now right. }
  destruct (removeInvalidFileNameChars_safe (stripSurroundingQuotes raw)) as [Hchars _ _ _].
  fold (sanitize raw) in Hchars.
  pose proof (removeInvalidFileNameChars_only_spaces (stripSurroundingQuotes raw)) as Hsp.
  fold (sanitize raw) in Hsp.
  assert (Tsep : Forall (fun c => is_separator c = false) (sanitize raw ++ ext parsed)).
  { apply Forall_app. split.
    - eapply Forall_impl; [|exact Hchars]. apply invalid_covers_separators.
    - eapply Forall_impl; [|exact Hext]. now intros c [A _]. }
  assert (Tplain : Forall (fun c => replace_nbsp c = c) (sanitize raw ++ ext parsed)).
  { apply Forall_app. split.
    - eapply Forall_impl; [|exact Hsp]. apply space_is_plain.
    - eapply Forall_impl; [|exact Hext]. now intros c [_ A]. }
  assert (Tne : sanitize raw ++ ext parsed <> []).
  { destruct (sanitize raw); [congruence | discriminate]. }
  unfold rename_target. fold parsed. change (js "/") with [47].
  subst target. unfold dir_prefix in *. destruct (dir parsed) as [|x d].
  - apply (normalizePath_rootless P (sanitize raw ++ ext parsed)); assumption.
  - replace ((x :: d) ++ [47] ++ sanitize raw ++ ext parsed)
      with (((x :: d) ++ [47]) ++ sanitize raw ++ ext parsed)
      by (rewrite <- app_assoc; reflexivity).
    apply normalizePath_normal; try assumption.
    + eapply Forall_impl; [|exact Hpre]. intros c Hc. now destruct (clean_char c Hc).
    + apply Hs. discriminate.
    + eapply Forall_impl; [|exact Hpre]. intros c Hc. now destruct (clean_char c Hc) as (_ & A & _).
    + discriminate.
Qed.

(** C6 as stated fails: the target goes through the host's normalisation.
    A title that the provider gives in decomposed form is composed, so the
    new base name is not the sanitized title, and a non-breaking space in
    the folder name becomes a plain space, so the directory is not kept. *)
Lemma rename_target_is_normalized :
  sanitize decomposed_title = js "Cafe" ++ [769]
  /\ rename_target composing_platform old_name (sanitize decomposed_title) =
       js "folder/Caf" ++ [233] ++ js ".md"
  /\ rename_target composing_platform old_name (sanitize decomposed_title) <>
       js "folder/" ++ sanitize decomposed_title ++ js ".md"
  /\ dir (path_parse (path spaced_folder_note)) = js "my" ++ [160] ++ js "notes"
  /\ rename_target composing_platform spaced_folder_note (sanitize sample_title) =
       js "my notes/Great Ideas.md".
Proof.
  split; [reflexivity|]. split; [reflexivity|].
  split; [vm_compute; discriminate|]. split; reflexivity.
Qed.

(** * The theorems at sample inputs *)

Lemma generateTitle_without_key_witness :
  generateTitle sample_platform DEFAULT_SETTINGS old_name (js "Some notes.") empty_world =
    (Return tt,
     {| log := [ConsoleError MISSING_KEY; Notice (notice_text sample_platform MISSING_KEY)];
        statusBar := [];
        openaiClient := None |}).
Proof.
  exact (generateTitle_without_key sample_platform DEFAULT_SETTINGS old_name
           (js "Some notes.") empty_world eq_refl eq_refl).
Defined.

Lemma sample_lowers_ascii : lowers_ascii sample_platform.
Proof. intros s _. reflexivity. Defined.

Lemma callOpenAI_default_model_witness :
  openai_model openai_settings = DEFAULT_MODEL
  /\ useCompletionsEndpoint sample_platform (openai_model openai_settings) = false
  /\ log (snd (callOpenAI sample_platform openai_settings (js "Name this note.") empty_world)) =
       [ChatCreate (js "sk-key") (chat_request openai_settings (js "Name this note."))].
Proof.
  destruct (callOpenAI_default_model sample_platform openai_settings (js "Name this note.")
              empty_world sample_lowers_ascii eq_refl) as (A & B & _ & C).
  split; [exact A|]. split; [exact B | exact C].
Defined.

Lemma callFireworks_null_body_witness :
  fst (callFireworks null_body_platform fireworks_settings
         (renderPrompt fireworks_settings (js "Some notes.")) empty_world) =
    Throw (TypeError (ReadOfNull (js "output_text")))
  /\ notices (log (snd (generateTitle null_body_platform fireworks_settings old_name
                          (js "Some notes.") empty_world))) =
       [notice_text null_body_platform (TypeError (ReadOfNull (js "output_text")))].
Proof.
  destruct (callFireworks_null_body null_body_platform fireworks_settings old_name
              (js "Some notes.") empty_world eq_refl) as (_ & A & B & _).
  - vm_compute. discriminate.
  - vm_compute. discriminate.
  - reflexivity.
  - split; [exact A | exact B].
Defined.

Lemma rename_target_replaces_name_witness :
  sanitize sample_title = js "Great Ideas"
  /\ path old_name = js "folder/" ++ js "old-name" ++ js ".md"
  /\ rename_target sample_platform old_name (sanitize sample_title) = js "folder/Great Ideas.md".
Proof.
  destruct (rename_target_replaces_name sample_platform old_name sample_title)
    as (A & _ & B).
  - reflexivity.
  - vm_compute. discriminate.
  - split; [reflexivity|]. split; [exact A | exact (B eq_refl)].
Defined.

(** The whole pipeline on the sample platform: the quoted answer of the
    provider ends up as the new name next to the old one. *)
Example generateTitle_renames :
  log (snd (generateTitle sample_platform openai_settings old_name (js "Some notes.") empty_world))
  = [ChatCreate (js "sk-key") (chat_request openai_settings
                                 (renderPrompt openai_settings (js "Some notes.")));
     RenameFile old_name (js "folder/Great Ideas.md")].
Proof. vm_compute. reflexivity. Qed.

(** The endpoint choice of the specification's examples. *)
Example legacy_model_uses_completions :
  useCompletionsEndpoint sample_platform (js "text-davinci-003") = true
  /\ useCompletionsEndpoint sample_platform (js "gpt-4o-mini") = false.
Proof. vm_compute. split; reflexivity. Qed.

(** * Further properties of the sanitizer *)

Lemma collapse_all (cls : N -> bool) (r : N) (b : bool) (s : str) :
  forallb cls s = true ->
  collapse_runs cls r b s = if b then [] else match s with [] => [] | _ => [r] end.
Proof.
  revert b. induction s as [|c tl IH]; intros b H; [now destruct b|].
  simpl in H. apply andb_true_iff in H as [Hc H]. simpl. rewrite Hc.
  rewrite (IH true H). now destruct b.
Qed.

Lemma forallb_strip_ends (q cls : N -> bool) (s : str) :
  forallb q s = true -> forallb q (strip_ends cls s) = true.
Proof.
  intros H. unfold strip_ends.
  destruct (dropWhile_suffix cls s) as [front E]. rewrite E, forallb_app in H.
  apply andb_true_iff in H as [_ H].
  destruct (strip_trailing_split cls (dropWhile cls s)) as (t & Et & _).
  rewrite Et, forallb_app in H. now apply andb_true_iff in H as [H _].
Qed.

(** X1.  An answer that holds nothing but illegal characters and white space
    is sanitized to the empty title. *)
Theorem sanitize_nothing_left (raw : str) :
  forallb (fun c => is_invalid_char c || is_ws c) raw = true ->
  sanitize raw = [].
Proof.
  intros H. unfold sanitize, removeInvalidFileNameChars, collapse_ws.
  apply (forallb_strip_ends _ is_strip_class) in H.
  fold (stripSurroundingQuotes raw) in H.
  assert (W : forallb is_ws (map replace_invalid (stripSurroundingQuotes raw)) = true).
  { induction (stripSurroundingQuotes raw) as [|c tl IH]; [reflexivity|].
    simpl in *. apply andb_true_iff in H as [Hc H]. rewrite (IH H), andb_true_r.
    unfold replace_invalid. destruct (is_invalid_char c); [reflexivity | exact Hc]. }
  rewrite (collapse_all is_ws 32 false _ W).
  destruct (map replace_invalid (stripSurroundingQuotes raw)); reflexivity.
Qed.

Lemma sanitize_nothing_left_witness :
  sanitize (js " ?? / :: * ") = [].
Proof. apply (sanitize_nothing_left (js " ?? / :: * ")). reflexivity. Defined.

(** X2.  Replacing the illegal characters a second time changes nothing. *)
Theorem removeInvalidFileNameChars_idempotent (s : str) :
  removeInvalidFileNameChars (removeInvalidFileNameChars s) = removeInvalidFileNameChars s.
Proof.
  apply removeInvalidFileNameChars_fixed.
  - apply removeInvalidFileNameChars_safe.
  - apply removeInvalidFileNameChars_only_spaces.
Qed.

Lemma strip_ends_starts (cls : N -> bool) (s : str) :
  starts cls (strip_ends cls s) = false.
Proof.
  unfold strip_ends.
  pose proof (dropWhile_starts cls s) as Hs.
  destruct (strip_trailing_split cls (dropWhile cls s)) as (t & Et & _).
  destruct (strip_trailing cls (dropWhile cls s)) as [|c rest]; [reflexivity|].
  rewrite Et in Hs. exact Hs.
Qed.

Lemma strip_ends_ends (cls : N -> bool) (s : str) :
  ends cls (strip_ends cls s) = false.
Proof.
  unfold strip_ends.
  now destruct (strip_trailing_split cls (dropWhile cls s)) as (t & _ & He).
Qed.

(** X3.  Stripping the quotation marks a second time changes nothing. *)
Theorem stripSurroundingQuotes_idempotent (s : str) :
  stripSurroundingQuotes (stripSurroundingQuotes s) = stripSurroundingQuotes s.
Proof.
  unfold stripSurroundingQuotes. unfold strip_ends at 1.
  rewrite dropWhile_id by apply strip_ends_starts.
  apply strip_trailing_id, strip_ends_ends.
Qed.

Lemma starts_orb_false (p q : N -> bool) (s : str) :
  starts (fun c => p c || q c) s = false -> starts p s = false /\ starts q s = false.
Proof. rewrite starts_orb. apply orb_false_iff. Qed.

Lemma sanitize_keeps_clean (s : str) :
  filename_safe s -> only_spaces s ->
  starts is_quote s = false -> ends is_quote s = false ->
  sanitize s = s.
Proof.
  intros [A B C D] Sp Qs Qe. unfold sanitize.
  rewrite stripSurroundingQuotes_id by assumption.
  apply removeInvalidFileNameChars_fixed; [split|]; assumption.
Qed.

(** X4.  The texts the sanitizer leaves as they are: those without an illegal
    character, with single plain spaces as their only white space, and
    with neither white space nor a quotation mark at an end. *)
Theorem sanitize_fixed_points (s : str) :
  sanitize s = s <->
  filename_safe s /\ only_spaces s
  /\ starts is_quote s = false /\ ends is_quote s = false.
Proof.
  split.
  - intros E. split; [|split].
    + rewrite <- E. apply removeInvalidFileNameChars_safe.
    + rewrite <- E. apply removeInvalidFileNameChars_only_spaces.
    + destruct (starts is_quote s) eqn:A.
      * exfalso. apply (sanitize_changes_outer_quotes s); rewrite !E; auto.
      * destruct (ends is_quote s) eqn:B; [|auto].
        exfalso. apply (sanitize_changes_outer_quotes s); rewrite !E; auto.
  - intros (A & Sp & Qs & Qe). now apply sanitize_keeps_clean.
Qed.

Lemma Forall_strip_ends (Q : N -> Prop) (cls : N -> bool) (s : str) :
  Forall Q s -> Forall Q (strip_ends cls s).
Proof.
  intros H. unfold strip_ends.
  destruct (dropWhile_suffix cls s) as [front E]. rewrite E in H.
  apply Forall_app in H as [_ H].
  destruct (strip_trailing_split cls (dropWhile cls s)) as (t & Et & _).
  rewrite Et in H. now apply Forall_app in H as [H _].
Qed.

Lemma no_double_strip_ends (p cls : N -> bool) (s : str) :
  no_double p s = true -> no_double p (strip_ends cls s) = true.
Proof.
  intros H. unfold strip_ends.
  destruct (dropWhile_suffix cls s) as [front E]. rewrite E in H.
  apply no_double_app_r in H.
  destruct (strip_trailing_split cls (dropWhile cls s)) as (t & Et & _).
  rewrite Et in H. now apply no_double_app_l in H.
Qed.

(** X5.  Two passes of the sanitizer always reach a text that further passes
    leave alone. *)
Theorem sanitize_settles_after_two (x : str) :
  sanitize (sanitize (sanitize x)) = sanitize (sanitize x).
Proof.
  destruct (removeInvalidFileNameChars_safe (stripSurroundingQuotes x)) as [A B C D].
  pose proof (removeInvalidFileNameChars_only_spaces (stripSurroundingQuotes x)) as Sp.
  fold (sanitize x) in A, B, C, D, Sp.
  set (z := stripSurroundingQuotes (sanitize x)).
  assert (Zs : starts is_strip_class z = false) by apply strip_ends_starts.
  assert (Ze : ends is_strip_class z = false) by apply strip_ends_ends.
  apply starts_orb_false in Zs as [Zs1 Zs2].
  unfold ends in Ze. apply starts_orb_false in Ze as [Ze1 Ze2].
  assert (Zsafe : filename_safe z).
  { split; [now apply Forall_strip_ends | exact Zs1 | exact Ze1
           | now apply no_double_strip_ends]. }
  assert (Zsp : only_spaces z) by now apply Forall_strip_ends.
  assert (E : sanitize (sanitize x) = z).
  { unfold sanitize at 1. fold z. now apply removeInvalidFileNameChars_fixed. }
  rewrite E. now apply sanitize_keeps_clean.
Qed.

(** * Further properties of the renderer *)

Lemma replace_from_untouched (replacement : str) (s before : str) :
  contains_placeholder s = false -> replace_from replacement before s = s.
Proof.
  revert before. induction s as [|c tl IH]; intros before H; [now simp replace_from|].
  rewrite replace_from_cons. cbn [contains_placeholder] in H.
  destruct (match_placeholder (c :: tl)); [discriminate|].
  f_equal. now apply IH.
Qed.

(** X6.  A template without a placeholder is sent as it is: the content of the
    note takes no part in the prompt. *)
Theorem renderPrompt_without_placeholder (settings : TitleGeneratorSettings) (content : str) :
  contains_placeholder (prompt_template settings) = false ->
  renderPrompt settings content = prompt_template settings.
Proof. intros H. unfold renderPrompt, replace_placeholder. now apply replace_from_untouched. Qed.

Lemma renderPrompt_without_placeholder_witness :
  renderPrompt (with_customPrompt (js "Name this note.") DEFAULT_SETTINGS) (js "Some notes.")
  = js "Name this note.".
Proof.
  apply (renderPrompt_without_placeholder
           (with_customPrompt (js "Name this note.") DEFAULT_SETTINGS) (js "Some notes.")).
  reflexivity.
Defined.

Lemma replace_from_no_brace (replacement a rest before : str) :
  forallb (fun c => negb (c =? 123)) a = true ->
  replace_from replacement before (a ++ rest) =
  a ++ replace_from replacement (before ++ a) rest.
Proof.
  revert before. induction a as [|c tl IH]; intros before H.
  - now rewrite app_nil_r.
  - simpl in H. apply andb_true_iff in H as [Hc H]. apply negb_true_iff in Hc.
    cbn [app]. rewrite replace_from_cons.
    assert (M : match_placeholder (c :: tl ++ rest) = None).
    { unfold match_placeholder, match_pair.
      destruct (tl ++ rest); [reflexivity|]. now rewrite Hc. }
    rewrite M. f_equal. rewrite (IH _ H), <- app_assoc. reflexivity.
Qed.

Lemma replace_one_placeholder (a m b content : str) :
  forallb (fun c => negb (c =? 123)) a = true ->
  placeholder_text m ->
  contains_placeholder b = false ->
  no_dollar content = true ->
  replace_placeholder (a ++ m ++ b) content = a ++ content ++ b.
Proof.
  intros Ha Hm Hb Hc. unfold replace_placeholder.
  rewrite replace_from_no_brace by assumption. f_equal.
  pose proof (match_placeholder_complete m b Hm) as M.
  pose proof (match_placeholder_length _ _ M) as L.
  destruct (m ++ b) as [|c tl] eqn:E.
  - destruct m; [simpl in L; lia | discriminate].
  - rewrite replace_from_cons, M, GetSubstitution_plain by assumption. f_equal.
    rewrite <- (skipn_pred_cons m c tl) by lia.
    rewrite <- E, skipn_app, skipn_all, Nat.sub_diag. cbn [skipn app].
    now apply replace_from_untouched.
Qed.

(** X7.  The placeholder is found in any of its spellings, upper or lower case,
    with or without white space inside the braces: the content takes its
    place between the text before it and the text behind it. *)
Theorem replace_placeholder_any_spelling (a m b content : str) :
  forallb (fun c => negb (c =? 123)) a = true ->
  placeholder_text m ->
  contains_placeholder b = false ->
  no_dollar content = true ->
  replace_placeholder (a ++ m ++ b) content = a ++ content ++ b.
Proof.
  apply replace_one_placeholder.
Qed.

Lemma replace_placeholder_any_spelling_witness :
  replace_placeholder (js "Title for: " ++ js "{{ CONTENT }}" ++ js ", please.") (js "my notes")
  = js "Title for: " ++ js "my notes" ++ js ", please.".
Proof.
  apply (replace_placeholder_any_spelling (js "Title for: ") (js "{{ CONTENT }}")
           (js ", please.") (js "my notes")); try reflexivity.
  exists (js " "), (js "CONTENT"), (js " ").
  split; [reflexivity|]. split; [reflexivity|]. split; [reflexivity|].
  unfold word_matches, content_word. repeat (constructor; [reflexivity|]). constructor.
Defined.

Lemma trim_DEFAULT_PROMPT : trim DEFAULT_PROMPT = DEFAULT_PROMPT.
Proof. vm_compute. reflexivity. Qed.

(** X8.  A custom prompt that is empty or blank gives way to the built-in
    template. *)
Theorem renderPrompt_blank_custom_prompt (settings : TitleGeneratorSettings) (content : str) :
  forallb is_ws (customPrompt settings) = true ->
  prompt_template settings = DEFAULT_PROMPT
  /\ renderPrompt settings content = renderPrompt DEFAULT_SETTINGS content.
Proof.
  intros H.
  assert (E : prompt_template settings = DEFAULT_PROMPT).
  { unfold prompt_template. now rewrite trim_blank. }
  split; [exact E|]. unfold renderPrompt. rewrite E.
  unfold prompt_template. cbn [customPrompt DEFAULT_SETTINGS].
  rewrite trim_DEFAULT_PROMPT. reflexivity.
Qed.

Lemma renderPrompt_blank_custom_prompt_witness :
  renderPrompt (with_customPrompt (js "   ") openai_settings) (js "Some notes.")
  = renderPrompt DEFAULT_SETTINGS (js "Some notes.").
Proof.
  apply (renderPrompt_blank_custom_prompt
           (with_customPrompt (js "   ") openai_settings) (js "Some notes.")).
  reflexivity.
Defined.

(** * Further properties of the provider clients *)

(** X9.  What the fetch of [callFireworks] answers decides the rest: a rejection
    is passed on, and a status that is not successful becomes an error with
    the status and the body text, the empty text if the body cannot be
    read; in both cases the body is never parsed, and the one request is all
    that was sent. *)
Theorem callFireworks_failed_request
    (P : Platform) (settings : TitleGeneratorSettings) (prompt : str) (w : World) :
  let model := trim (fireworksModel settings) in
  let apiKey := trim (fireworksApiKey settings) in
  let request := fireworks_request model apiKey prompt in
  let sent := {| log := log w ++ [Fetch request];
                 statusBar := statusBar w; openaiClient := openaiClient w |} in
  model <> [] -> apiKey <> [] ->
  (forall err, fetch P (log w) request = Throw err ->
     callFireworks P settings prompt w = (Throw err, sent))
  /\ (forall res, fetch P (log w) request = Return res -> res_ok res = false ->
        callFireworks P settings prompt w =
          (Throw (Error (js "Fireworks API error " ++ decimal (res_status res) ++ js ": "
                           ++ match res_text res with
                              | Return body => body
                              | Throw _ => []
                              end)), sent)).
Proof.
  intros model apiKey request sent Hm Hk. subst request sent model apiKey.
  unfold callFireworks.
  destruct (trim (fireworksModel settings)) as [|m model]; [congruence|].
  destruct (trim (fireworksApiKey settings)) as [|k key]; [congruence|].
  split.
  - intros err E. unfold bind, external. now rewrite E.
  - intros res E Hok. unfold bind at 1. unfold external. rewrite E, Hok. cbn [negb].
    unfold bind, try_catch, await, ret, throw. now destruct (res_text res).
Qed.

Lemma trim_trim (s : str) : trim (trim s) = trim s.
Proof. apply trim_id; [apply trim_starts | apply trim_ends]. Qed.

Lemma dig_last_trimmed (numberToString : Q -> str) (v : json) (s : str) :
  dig_last numberToString v = Return s -> trim s = s.
Proof.
  unfold dig_last.
  assert (T0 : forall s', @Return str [] = Return s' -> trim s' = s').
  { intros s' [= <-]. reflexivity. }
  destruct v; try (apply T0);
    (destruct (get_named _ _) as [[[]|]|]; cbn [obind]; try discriminate; try (apply T0);
     destruct (get_index0 _) as [[[]|]|]; cbn [obind]; try discriminate; try (apply T0);
     destruct (get_named _ _) as [[[]|]|]; cbn [obind]; try discriminate; try (apply T0);
     destruct (call_toString _ _); cbn [obind]; try discriminate;
     intros [= <-]; apply trim_trim).
Qed.

(** X10.  Reading the answer never throws once the first member could be turned
    into a text: whatever [output] holds, the result is a trimmed text, and
    it is the text of [output_text] whenever that is not blank. *)
Theorem extract_output_returns
    (numberToString : Q -> str) (data : json) (output_text : option json) (s : str) :
  get_named data (js "output_text") = Return output_text ->
  call_toString numberToString (nullish_or output_text (JStr [])) = Return s ->
  exists out,
    extract_output numberToString data = Return out
    /\ trim out = out
    /\ (trim s <> [] -> out = trim s).
Proof.
  intros H1 H2. unfold extract_output. rewrite H1. cbn [obind]. rewrite H2. cbn [obind].
  cbv zeta. destruct (trim s) as [|c rest] eqn:E.
  - assert (G : exists output, get_named data (js "output") = Return output).
    { destruct data; try (eexists; reflexivity). discriminate. }
    destruct G as [output ->]. cbn [obind].
    destruct output as [[| | | |[|x more]|]|];
      try (exists []; repeat split; congruence).
    destruct (dig_last numberToString (last (x :: more) JNull)) as [s'|err] eqn:D.
    + exists s'. split; [reflexivity|]. split; [|congruence].
      now apply (dig_last_trimmed _ _ _ D).
    + exists []. repeat split; congruence.
  - exists (c :: rest). split; [reflexivity|]. split; [|reflexivity].
    rewrite <- E. apply trim_trim.
Qed.

Lemma extract_output_returns_witness :
  exists out,
    extract_output (fun _ => js "42")
      (JObj [(js "output_text", JNum (42 # 1)); (js "output", JStr (js "none"))]) = Return out
    /\ trim out = out
    /\ (trim (js "42") <> [] -> out = trim (js "42")).
Proof.
  apply (extract_output_returns (fun _ => js "42")
           (JObj [(js "output_text", JNum (42 # 1)); (js "output", JStr (js "none"))])
           (Some (JNum (42 # 1))) (js "42")); reflexivity.
Defined.

(** X11.  Without a usable [output_text] the text is taken from the last element
    of [output], from the [text] of the first entry of its [content]. *)
Theorem extract_output_reads_last
    (numberToString : Q -> str) (fields lastFields entryFields : list (str * json))
    (items entries : list json) (t : str) :
  own_property fields (js "output_text") = None ->
  own_property fields (js "output") = Some (JArr (items ++ [JObj lastFields])) ->
  own_property lastFields (js "content") = Some (JArr (JObj entryFields :: entries)) ->
  own_property entryFields (js "text") = Some (JStr t) ->
  extract_output numberToString (JObj fields) = Return (trim t).
Proof.
  intros H1 H2 H3 H4. unfold extract_output. cbn [get_named obind].
  rewrite H1. cbn [nullish_or call_toString element_string obind].
  change (trim []) with (@nil N). cbv zeta. cbn [get_named obind]. rewrite H2.
  destruct (items ++ [JObj lastFields]) as [|x more] eqn:E.
  - destruct items; discriminate.
  - rewrite <- E, last_last. unfold dig_last. cbn [get_named obind]. rewrite H3.
    cbn [get_index0 obind get_named]. rewrite H4.
    cbn [call_toString element_string obind]. reflexivity.
Qed.

Lemma extract_output_reads_last_witness :
  extract_output (fun _ => js "0")
    (JObj [(js "output",
            JArr ([JObj [(js "type", JStr (js "reasoning"))]]
                  ++ [JObj [(js "content",
                             JArr [JObj [(js "text", JStr (js " Great Ideas "))]])]]))])
  = Return (trim (js " Great Ideas ")).
Proof.
  apply (extract_output_reads_last (fun _ => js "0") _
           [(js "content", JArr [JObj [(js "text", JStr (js " Great Ideas "))]])]
           [(js "text", JStr (js " Great Ideas "))]
           [JObj [(js "type", JStr (js "reasoning"))]] []); reflexivity.
Defined.

Lemma callOpenAI_log
    (P : Platform) (settings : TitleGeneratorSettings) (prompt : str) (w : World) :
  let key := client_key settings w in
  log (snd (callOpenAI P settings prompt w)) =
    log w ++ [if useCompletionsEndpoint P (openai_model settings)
              then CompletionsCreate key (completion_request settings prompt)
              else ChatCreate key (chat_request settings prompt)]
  /\ openaiClient (snd (callOpenAI P settings prompt w)) = Some key
  /\ statusBar (snd (callOpenAI P settings prompt w)) = statusBar w.
Proof.
  unfold callOpenAI, client_key, bind, ensureClient, external.
  destruct (openaiClient w) as [key|] eqn:Ec; cbn [fst snd log];
    destruct (useCompletionsEndpoint P (openai_model settings)); cbn [fst snd log];
    [destruct (completionsCreate P _ _ _) | destruct (chatCreate P _ _ _)
    |destruct (completionsCreate P _ _ _) | destruct (chatCreate P _ _ _)];
    repeat split; try reflexivity; exact Ec.
Qed.

(** X12.  [callOpenAI] makes exactly one call to the provider, whatever the
    answer: to the endpoint that the model name selects, with the key the
    client handle holds, which is the key of the settings only if the handle
    had to be made.  Afterwards there is a handle. *)
Theorem callOpenAI_one_call
    (P : Platform) (settings : TitleGeneratorSettings) (prompt : str) (w : World) :
  let key := client_key settings w in
  log (snd (callOpenAI P settings prompt w)) =
    log w ++ [if useCompletionsEndpoint P (openai_model settings)
              then CompletionsCreate key (completion_request settings prompt)
              else ChatCreate key (chat_request settings prompt)]
  /\ openaiClient (snd (callOpenAI P settings prompt w)) = Some key
  /\ statusBar (snd (callOpenAI P settings prompt w)) = statusBar w.
Proof. apply callOpenAI_log. Qed.

Lemma map_ascii_lower_ascii (s : str) :
  Forall (fun c => c < 128) s -> Forall (fun c => c < 128) (map ascii_lower s).
Proof.
  induction 1 as [|c tl Hc _ IH]; simpl; constructor; [|exact IH].
  unfold ascii_lower. destruct ((65 <=? c) && (c <=? 90)) eqn:E; [|exact Hc].
  apply andb_true_iff in E as [_ E]. apply N.leb_le in E. lia.
Qed.

(** X13.  On ASCII model names the choice of the endpoint does not depend on the
    case of the letters. *)
Theorem useCompletionsEndpoint_ignores_case (P : Platform) (a b : str) :
  lowers_ascii P ->
  Forall (fun c => c < 128) a -> Forall (fun c => c < 128) b ->
  map ascii_lower a = map ascii_lower b ->
  useCompletionsEndpoint P a = useCompletionsEndpoint P b.
Proof.
  intros HP Ha Hb E. unfold useCompletionsEndpoint.
  rewrite (HP a Ha), (HP b Hb), E.
  destruct a, b; try reflexivity; discriminate.
Qed.

Lemma useCompletionsEndpoint_ignores_case_witness :
  useCompletionsEndpoint sample_platform (js "GPT-3.5-Turbo-INSTRUCT")
  = useCompletionsEndpoint sample_platform (js "gpt-3.5-turbo-instruct").
Proof.
  apply (useCompletionsEndpoint_ignores_case sample_platform
           (js "GPT-3.5-Turbo-INSTRUCT") (js "gpt-3.5-turbo-instruct")).
  - intros s _. reflexivity.
  - apply Forall_forall. intros c Hc. vm_compute in Hc.
    repeat (destruct Hc as [<-|Hc]; [reflexivity|]). contradiction.
  - apply Forall_forall. intros c Hc. vm_compute in Hc.
    repeat (destruct Hc as [<-|Hc]; [reflexivity|]). contradiction.
  - reflexivity.
Defined.

(** * Further properties of the orchestrator *)

Lemma generateTitle_of_attempt
    (P : Platform) (settings : TitleGeneratorSettings) (file : TFile) (content : str)
    (w w3 : World) (r : Outcome unit) :
  generateTitle_try P settings file content (indicator_shown w) = (r, w3) ->
  generateTitle P settings file content w =
    (Return tt,
     {| log := log w3 ++ failure_report P r;
        statusBar := statusBar w;
        openaiClient := openaiClient w3 |}).
Proof.
  intros H.
  destruct (generateTitle_try_emits P settings file content (indicator_shown w))
    as (S1 & _).
  rewrite H in S1. cbn [snd] in S1.
  pose proof (indicator_removed w w3 S1) as R. unfold remove in R. cbn [snd statusBar] in R.
  rewrite generateTitle_unfold, try_finally_remove. unfold try_catch. rewrite H.
  destruct r as [[]|err]; cbn [fst snd failure_report].
  - unfold remove. cbn [snd log statusBar openaiClient]. now rewrite R, app_nil_r.
  - unfold generateTitle_catch, emit, bind, external, remove.
    cbn [fst snd log statusBar openaiClient]. now rewrite R, <- app_assoc.
Qed.

Lemma attempt_of_complete
    (P : Platform) (settings : TitleGeneratorSettings) (file : TFile) (content : str)
    (w1 w2 : World) (r : Outcome str) :
  complete P settings (renderPrompt settings content) w1 = (r, w2) ->
  generateTitle_try P settings file content w1 =
    match r with
    | Throw err => (Throw err, w2)
    | Return raw =>
        match sanitize raw with
        | [] => (Throw EMPTY_TITLE, w2)
        | _ =>
            external (RenameFile file (rename_target P file (sanitize raw)))
              (fun history => renameFile P history file (rename_target P file (sanitize raw)))
              w2
        end
    end.
Proof.
  intros H. unfold generateTitle_try. cbv zeta.
  change (match provider settings with
          | openai => match openAiApiKey settings with
                      | [] => throw MISSING_KEY
                      | _ :: _ => callOpenAI P settings (renderPrompt settings content)
                      end
          | fireworks => callFireworks P settings (renderPrompt settings content)
          end) with (complete P settings (renderPrompt settings content)).
  unfold bind at 1. rewrite H. destruct r as [raw|err]; [|reflexivity].
  fold (sanitize raw). destruct (sanitize raw); reflexivity.
Qed.

(** X14.  An answer that sanitizes to nothing is reported as an empty title:
    nothing is renamed, and the user gets the one notice that says so. *)
Theorem generateTitle_empty_answer
    (P : Platform) (settings : TitleGeneratorSettings) (file : TFile) (content raw : str)
    (w w2 : World) :
  complete P settings (renderPrompt settings content) (indicator_shown w) = (Return raw, w2) ->
  sanitize raw = [] ->
  generateTitle P settings file content w =
    (Return tt,
     {| log := log w2 ++ [ConsoleError EMPTY_TITLE; Notice (notice_text P EMPTY_TITLE)];
        statusBar := statusBar w;
        openaiClient := openaiClient w2 |}).
Proof.
  intros H E. apply (attempt_of_complete P settings file content) in H. rewrite E in H.
  exact (generateTitle_of_attempt P settings file content w w2 _ H).
Qed.

(** X15.  When the provider answers with a usable title and the host accepts the
    rename, that rename is all [generateTitle] adds to the log: no notice is
    shown. *)
Theorem generateTitle_renames_silently
    (P : Platform) (settings : TitleGeneratorSettings) (file : TFile) (content raw : str)
    (w w2 : World) :
  complete P settings (renderPrompt settings content) (indicator_shown w) = (Return raw, w2) ->
  sanitize raw <> [] ->
  renameFile P (log w2) file (rename_target P file (sanitize raw)) = Return tt ->
  generateTitle P settings file content w =
    (Return tt,
     {| log := log w2 ++ [RenameFile file (rename_target P file (sanitize raw))];
        statusBar := statusBar w;
        openaiClient := openaiClient w2 |}).
Proof.
  intros H E Hr. apply (attempt_of_complete P settings file content) in H.
  destruct (sanitize raw) as [|c title] eqn:Es; [congruence|].
  unfold external in H. rewrite Hr in H.
  rewrite (generateTitle_of_attempt P settings file content w _ _ H).
  cbn [log openaiClient failure_report]. now rewrite app_nil_r.
Qed.

(** X16.  When the host refuses the rename, the refusal is what the one notice
    shows. *)
Theorem generateTitle_rename_refused
    (P : Platform) (settings : TitleGeneratorSettings) (file : TFile) (content raw : str)
    (w w2 : World) (err : js_error) :
  complete P settings (renderPrompt settings content) (indicator_shown w) = (Return raw, w2) ->
  sanitize raw <> [] ->
  renameFile P (log w2) file (rename_target P file (sanitize raw)) = Throw err ->
  generateTitle P settings file content w =
    (Return tt,
     {| log := log w2 ++ [RenameFile file (rename_target P file (sanitize raw));
                          ConsoleError err; Notice (notice_text P err)];
        statusBar := statusBar w;
        openaiClient := openaiClient w2 |}).
Proof.
  intros H E Hr. apply (attempt_of_complete P settings file content) in H.
  destruct (sanitize raw) as [|c title] eqn:Es; [congruence|].
  unfold external in H. rewrite Hr in H.
  rewrite (generateTitle_of_attempt P settings file content w _ _ H).
  cbn [log openaiClient failure_report]. now rewrite <- app_assoc.
Qed.

(** X17.  When the provider call fails, the failure is what the one notice
    shows, and nothing is renamed. *)
Theorem generateTitle_provider_failure
    (P : Platform) (settings : TitleGeneratorSettings) (file : TFile) (content : str)
    (w w2 : World) (err : js_error) :
  complete P settings (renderPrompt settings content) (indicator_shown w) = (Throw err, w2) ->
  generateTitle P settings file content w =
    (Return tt,
     {| log := log w2 ++ [ConsoleError err; Notice (notice_text P err)];
        statusBar := statusBar w;
        openaiClient := openaiClient w2 |}).
Proof.
  intros H. apply (attempt_of_complete P settings file content) in H.
  exact (generateTitle_of_attempt P settings file content w w2 _ H).
Qed.

Lemma callFireworks_world
    (P : Platform) (settings : TitleGeneratorSettings) (prompt : str) (w : World) :
  (snd (callFireworks P settings prompt w) = w
   /\ exists err, fst (callFireworks P settings prompt w) = Throw err)
  \/ exists request,
       snd (callFireworks P settings prompt w) =
         {| log := log w ++ [Fetch request];
            statusBar := statusBar w; openaiClient := openaiClient w |}.
Proof.
  unfold callFireworks.
  destruct (trim (fireworksModel settings)) as [|m model];
    [left; split; [reflexivity | eexists; reflexivity]|].
  destruct (trim (fireworksApiKey settings)) as [|k key];
    [left; split; [reflexivity | eexists; reflexivity]|].
  right. eexists. unfold bind, external. cbn [fst snd].
  destruct (fetch P (log w) _) as [res|e]; [|reflexivity].
  destruct (res_ok res); cbn [negb].
  - unfold bind, await. destruct (res_json res); [|reflexivity].
    destruct (extract_output _ _); reflexivity.
  - unfold bind, try_catch, await, throw, ret. destruct (res_text res); reflexivity.
Qed.

(** The provider call of [generateTitle]: at most one call goes out,
    exactly one if an answer comes back, and it goes through the client of
    the selected provider only. *)
Lemma complete_log
    (P : Platform) (settings : TitleGeneratorSettings) (prompt : str) (w : World) :
  exists calls,
    log (snd (complete P settings prompt w)) = log w ++ calls
    /\ (calls = [] \/ exists call, calls = [call])
    /\ ((exists raw, fst (complete P settings prompt w) = Return raw) -> calls <> [])
    /\ match provider settings with
       | fireworks =>
           openaiClient (snd (complete P settings prompt w)) = openaiClient w
           /\ Forall (fun ev => is_fetch ev = true) calls
       | openai => Forall (fun ev => is_sdk_call ev = true) calls
       end.
Proof.
  unfold complete. destruct (provider settings).
  - destruct (openAiApiKey settings) as [|k key].
    + exists []. unfold throw. cbn [fst snd]. rewrite app_nil_r.
      split; [reflexivity|]. split; [now left|]. split; [|constructor].
      intros [raw H]. discriminate.
    + destruct (callOpenAI_log P settings prompt w) as (L & _).
      eexists. split; [exact L|]. split; [right; eauto|]. split; [discriminate|].
      constructor; [|constructor].
      now destruct (useCompletionsEndpoint P (openai_model settings)).
  - destruct (callFireworks_world P settings prompt w) as [[E [err Hf]]|[request E]].
    + exists []. rewrite E, app_nil_r.
      split; [reflexivity|]. split; [now left|]. split; [|split; [reflexivity | constructor]].
      intros [raw H]. congruence.
    + exists [Fetch request]. rewrite E. cbn [log openaiClient].
      split; [reflexivity|]. split; [right; eauto|]. split; [discriminate|].
      split; [reflexivity|]. now repeat constructor.
Qed.

Lemma generateTitle_trace
    (P : Platform) (settings : TitleGeneratorSettings) (file : TFile) (content : str) (w : World) :
  exists calls tail,
    log (snd (generateTitle P settings file content w)) = log w ++ calls ++ tail
    /\ (calls = [] \/ exists call, calls = [call])
    /\ closing_events P file tail
    /\ ((exists title outcome, tail = RenameFile file title :: outcome) -> calls <> [])
    /\ match provider settings with
       | fireworks =>
           openaiClient (snd (generateTitle P settings file content w)) = openaiClient w
           /\ Forall (fun ev => is_fetch ev = true) calls
       | openai => Forall (fun ev => is_sdk_call ev = true) calls
       end.
Proof.
  destruct (complete_log P settings (renderPrompt settings content) (indicator_shown w))
    as (calls & L & Hc & Hret & Hp).
  destruct (complete P settings (renderPrompt settings content) (indicator_shown w))
    as [r w2] eqn:E.
  cbn [fst snd] in *. change (log (indicator_shown w)) with (log w) in L.
  change (openaiClient (indicator_shown w)) with (openaiClient w) in Hp.
  pose proof (attempt_of_complete P settings file content _ _ _ E) as A.
  exists calls.
  destruct r as [raw|err].
  - destruct (sanitize raw) as [|c title] eqn:Es.
    + exists (failure_report P (Throw EMPTY_TITLE)).
      rewrite (generateTitle_of_attempt P settings file content w _ _ A).
      cbn [snd log openaiClient]. rewrite L, <- app_assoc.
      split; [reflexivity|]. split; [exact Hc|]. split; [left; eauto|].
      split; [intros (t & o & H); discriminate | exact Hp].
    + unfold external in A.
      exists (RenameFile file (rename_target P file (c :: title))
                :: failure_report P (renameFile P (log w2) file
                                       (rename_target P file (c :: title)))).
      rewrite (generateTitle_of_attempt P settings file content w _ _ A).
      cbn [snd log openaiClient]. rewrite L, <- !app_assoc.
      split; [reflexivity|]. split; [exact Hc|]. split.
      * right. exists (c :: title). eexists.
        split; [discriminate|]. split; [|reflexivity].
        rewrite <- Es. apply removeInvalidFileNameChars_safe.
      * split; [intros _; apply Hret; eauto | exact Hp].
  - exists (failure_report P (Throw err)).
    rewrite (generateTitle_of_attempt P settings file content w _ _ A).
    cbn [snd log openaiClient]. rewrite L, <- app_assoc.
    split; [reflexivity|]. split; [exact Hc|]. split; [left; eauto|].
    split; [intros (t & o & H); discriminate | exact Hp].
Qed.

Lemma renames_app (a b : list event) : renames (a ++ b) = renames a ++ renames b.
Proof.
  induction a as [|ev a IH]; [reflexivity|].
  destruct ev; cbn [app renames]; rewrite IH; reflexivity.
Qed.

Lemma failure_report_quiet (P : Platform) (outcome : Outcome unit) (q : event -> bool) :
  (forall err, q (ConsoleError err) = false) -> (forall m, q (Notice m) = false) ->
  filter q (failure_report P outcome) = [] /\ renames (failure_report P outcome) = [].
Proof.
  intros H1 H2. destruct outcome as [[]|err]; cbn [failure_report filter renames]; [auto|].
  now rewrite H1, H2.
Qed.

Lemma calls_are_calls (settings : TitleGeneratorSettings) (calls : list event) (w1 w : World) :
  match provider settings with
  | fireworks => openaiClient w1 = openaiClient w /\ Forall (fun ev => is_fetch ev = true) calls
  | openai => Forall (fun ev => is_sdk_call ev = true) calls
  end ->
  Forall (fun ev => is_provider_call ev = true /\ renames [ev] = []) calls.
Proof.
  destruct (provider settings).
  - intros H. eapply Forall_impl; [|exact H]. intros ev Hev. now destruct ev.
  - intros [_ H]. eapply Forall_impl; [|exact H]. intros ev Hev. now destruct ev.
Qed.

(** X18.  [generateTitle] never asks a provider twice and never renames twice.
    A rename is always for the document at hand, to a target made from a
    title that is not empty and is safe as a file name, and it only happens
    after the one provider call. *)
Theorem generateTitle_one_call_one_rename
    (P : Platform) (settings : TitleGeneratorSettings) (file : TFile) (content : str) (w : World) :
  exists new,
    log (snd (generateTitle P settings file content w)) = log w ++ new
    /\ (length (provider_calls new) <= 1)%nat
    /\ (length (renames new) <= 1)%nat
    /\ Forall (fun fr => fst fr = file
                         /\ exists title, title <> [] /\ filename_safe title
                                          /\ snd fr = rename_target P file title)
         (renames new)
    /\ (renames new <> [] -> length (provider_calls new) = 1%nat).
Proof.
  destruct (generateTitle_trace P settings file content w)
    as (calls & tail & L & Hc & Ht & Hr & Hp).
  apply (calls_are_calls settings) in Hp.
  exists (calls ++ tail). split; [exact L|].
  assert (C1 : provider_calls calls = calls /\ renames calls = []).
  { destruct Hc as [->|[call ->]]; [split; reflexivity|].
    inversion Hp as [|? ? [A B] _]; subst. unfold provider_calls. cbn [filter].
    rewrite A. split; [reflexivity | exact B]. }
  destruct C1 as [C1 C2].
  unfold provider_calls in *. rewrite filter_app, renames_app, C1, C2. cbn [app].
  destruct Ht as [[err ->]|(title & outcome & Hne & Hsafe & ->)].
  - destruct (failure_report_quiet P (Throw err) is_provider_call) as [F1 F2]; try reflexivity.
    rewrite F1, F2, app_nil_r.
    split; [destruct Hc as [->|[call ->]]; simpl; lia|].
    split; [simpl; lia|]. split; [constructor | congruence].
  - destruct (failure_report_quiet P outcome is_provider_call) as [F1 F2]; try reflexivity.
    cbn [filter is_provider_call renames]. rewrite F1, F2, app_nil_r.
    assert (Hcall : exists call, calls = [call]).
    { destruct Hc as [->|H]; [|exact H]. exfalso. apply Hr; eauto. }
    destruct Hcall as [call ->].
    split; [simpl; lia|]. split; [simpl; lia|]. split; [|reflexivity].
    constructor; [|constructor]. split; [reflexivity|]. now exists title.
Qed.

(** X19.  Only the client of the selected provider is used: with Fireworks
    selected nothing goes through the OpenAI client and its handle is left
    as it was, and with OpenAI selected nothing is sent with [fetch]. *)
Theorem generateTitle_one_provider
    (P : Platform) (settings : TitleGeneratorSettings) (file : TFile) (content : str) (w : World) :
  exists new,
    log (snd (generateTitle P settings file content w)) = log w ++ new
    /\ match provider settings with
       | fireworks =>
           filter is_sdk_call new = []
           /\ openaiClient (snd (generateTitle P settings file content w)) = openaiClient w
       | openai => filter is_fetch new = []
       end.
Proof.
  destruct (generateTitle_trace P settings file content w)
    as (calls & tail & L & Hc & Ht & Hr & Hp).
  exists (calls ++ tail). split; [exact L|].
  assert (T : filter is_sdk_call tail = [] /\ filter is_fetch tail = []).
  { destruct Ht as [[err ->]|(title & outcome & _ & _ & ->)]; cbn [filter is_sdk_call is_fetch].
    - split; apply failure_report_quiet; reflexivity.
    - split; apply failure_report_quiet; reflexivity. }
  destruct T as [T1 T2]. rewrite !filter_app, T1, T2, !app_nil_r.
  destruct (provider settings).
  - destruct Hc as [->|[call ->]]; [reflexivity|].
    inversion Hp as [|? ? A _]; subst. destruct call; try discriminate; reflexivity.
  - destruct Hp as [Ho Hp]. split; [|exact Ho].
    destruct Hc as [->|[call ->]]; [reflexivity|].
    inversion Hp as [|? ? A _]; subst. destruct call; try discriminate; reflexivity.
Qed.

(** X20.  With Fireworks selected and its model or its key empty or blank,
    [generateTitle] sends nothing and shows the notice that names what is
    missing: the model if that is missing, the key otherwise. *)
Theorem generateTitle_fireworks_not_configured
    (P : Platform) (settings : TitleGeneratorSettings) (file : TFile) (content : str) (w : World) :
  let missing :=
    Error (match trim (fireworksModel settings) with
           | [] => js "Fireworks model is required."
           | _ => js "Fireworks API key is required."
           end) in
  provider settings = fireworks ->
  trim (fireworksModel settings) = [] \/ trim (fireworksApiKey settings) = [] ->
  generateTitle P settings file content w =
    (Return tt,
     {| log := log w ++ [ConsoleError missing; Notice (notice_text P missing)];
        statusBar := statusBar w;
        openaiClient := openaiClient w |}).
Proof.
  intros missing Hp H.
  assert (C : complete P settings (renderPrompt settings content) (indicator_shown w)
              = (Throw missing, indicator_shown w)).
  { unfold complete, missing. rewrite Hp. unfold callFireworks.
    destruct (trim (fireworksModel settings)) as [|m model]; [reflexivity|].
    destruct H as [H|H]; [discriminate|]. now rewrite H. }
  apply (attempt_of_complete P settings file content) in C.
  exact (generateTitle_of_attempt P settings file content w _ _ C).
Qed.

(** X21.  A key typed into the settings tab is stored trimmed, so a blank entry
    is a missing key: with OpenAI selected the next run stops before any call
    and asks for the key. *)
Theorem blank_key_entry_is_missing
    (P : Platform) (settings : TitleGeneratorSettings) (typed : str)
    (file : TFile) (content : str) (w : World) :
  provider settings = openai ->
  forallb is_ws typed = true ->
  generateTitle P (with_openAiApiKey typed settings) file content w =
    (Return tt,
     {| log := log w ++ [ConsoleError MISSING_KEY; Notice (notice_text P MISSING_KEY)];
        statusBar := statusBar w;
        openaiClient := openaiClient w |}).
Proof.
  intros Hp H.
  assert (C : complete P (with_openAiApiKey typed settings)
                (renderPrompt (with_openAiApiKey typed settings) content) (indicator_shown w)
              = (Throw MISSING_KEY, indicator_shown w)).
  { unfold complete. cbn [provider openAiApiKey with_openAiApiKey].
    now rewrite Hp, (trim_blank _ H). }
  apply (attempt_of_complete P _ file content) in C.
  exact (generateTitle_of_attempt P _ file content w _ _ C).
Qed.

(** * Entry points *)

(** X22.  The editor command never reads the document from the vault: it works on
    the text of the editor.  Without an active file it throws and touches
    nothing; with one its promise is fulfilled whatever happens to the title,
    and once the run has ended the status bar is as it was. *)
Theorem generateTitleFromEditor_uses_editor_text
    (P : Platform) (settings : TitleGeneratorSettings) (activeFile : option TFile)
    (editorValue : str) (w : World) :
  reads (log (snd (generateTitleFromEditor P settings activeFile editorValue w))) =
    reads (log w)
  /\ statusBar (snd (generateTitleFromEditor P settings activeFile editorValue w)) =
       statusBar w
  /\ match activeFile with
     | None =>
         generateTitleFromEditor P settings activeFile editorValue w =
           (Throw (Error (js "No active file")), w)
     | Some _ =>
         fst (generateTitleFromEditor P settings activeFile editorValue w) = Return tt
     end.
Proof.
  destruct activeFile as [file|]; cbn [generateTitleFromEditor].
  - destruct (generateTitle_outcome P settings file editorValue w) as (A & B & _).
    split; [apply reads_generateTitle|]. split; [exact B | exact A].
  - repeat split.
Qed.

Lemma generateTitleFromFile_quiet
    (P : Platform) (settings : TitleGeneratorSettings) (file : TFile) (w : World) :
  (exists content, cachedRead P (log w) file = Return content) ->
  statusBar (snd (generateTitleFromFile P settings file w)) = statusBar w
  /\ exists shown,
       notices (log (snd (generateTitleFromFile P settings file w))) = notices (log w) ++ shown
       /\ (length shown <= 1)%nat.
Proof.
  intros [content E]. unfold generateTitleFromFile, bind, external. rewrite E.
  set (w1 := {| log := log w ++ [CachedRead file];
                statusBar := statusBar w; openaiClient := openaiClient w |}).
  destruct (generateTitle_outcome P settings file content w1) as (_ & B & _ & N).
  cbv zeta in N. split; [exact B|].
  eexists. split.
  - rewrite N. unfold w1 at 1. cbn [log]. rewrite notices_app. cbn [notices].
    rewrite app_nil_r. reflexivity.
  - destruct (fst _) as [[]|e]; simpl; lia.
Qed.

(** X23.  When every selected document can be read, the bulk action leaves the
    status bar as it found it and shows at most one notice for each
    document. *)
Theorem generateTitles_quiet
    (P : Platform) (settings : TitleGeneratorSettings) (tFiles : list TFile) (w : World) :
  (forall history file, In file tFiles ->
     exists content, cachedRead P history file = Return content) ->
  statusBar (snd (pMap tFiles (generateTitleFromFile P settings) w)) = statusBar w
  /\ exists shown,
       notices (log (snd (pMap tFiles (generateTitleFromFile P settings) w))) =
         notices (log w) ++ shown
       /\ (length shown <= length tFiles)%nat.
Proof.
  revert w. induction tFiles as [|file more IH]; intros w Hr.
  - split; [reflexivity|]. exists []. now rewrite app_nil_r.
  - destruct (generateTitleFromFile_settles P settings file w) as [R1 _];
      [apply Hr; now left|].
    destruct (generateTitleFromFile_quiet P settings file w) as (S1 & shown1 & N1 & L1);
      [apply Hr; now left|].
    destruct (generateTitleFromFile P settings file w) as [r w1] eqn:E1.
    cbn [fst snd] in *. subst r.
    destruct (pMap_sequence P settings more w1) as (I1 & _);
      [intros h f Hf; apply Hr; now right|].
    destruct (IH w1) as (S2 & shown2 & N2 & L2); [intros h f Hf; apply Hr; now right|].
    destruct (pMap more (generateTitleFromFile P settings) w1) as [r w2] eqn:E2.
    cbn [fst snd] in *. subst r.
    rewrite (pMap_cons_ok _ _ _ _ _ _ _ _ E1 E2). cbn [snd].
    split; [congruence|]. exists (shown1 ++ shown2).
    rewrite N2, N1, <- app_assoc, length_app. split; [reflexivity | simpl; lia].
Qed.

(** * Settings *)

(** X24.  After [onload] the client handle holds the stored key, or the empty
    default, and the next OpenAI call is made with it. *)
Theorem onload_sets_client_key
    (P : Platform) (data : option StoredSettings) (prompt : str) (w : World) :
  let settings := mergeSettings data in
  let started := snd (onload (Return data) w) in
  fst (onload (Return data) w) = Return settings
  /\ openaiClient started = Some (openAiApiKey settings)
  /\ log (snd (callOpenAI P settings prompt started)) =
       log w ++ [if useCompletionsEndpoint P (openai_model settings)
                 then CompletionsCreate (openAiApiKey settings) (completion_request settings prompt)
                 else ChatCreate (openAiApiKey settings) (chat_request settings prompt)].
Proof.
  intros settings started. split; [reflexivity|]. split; [reflexivity|].
  destruct (callOpenAI_log P settings prompt started) as (L & _). exact L.
Qed.

(** X25.  Once the settings are saved, the next OpenAI call is made with the key
    of the saved settings, whatever key the handle held before. *)
Theorem saveSettings_refreshes_key
    (P : Platform) (settings : TitleGeneratorSettings) (prompt : str) (w : World) :
  let saved := snd (saveSettings (Return tt) settings w) in
  fst (saveSettings (Return tt) settings w) = Return tt
  /\ client_key settings saved = openAiApiKey settings
  /\ log (snd (callOpenAI P settings prompt saved)) =
       log w ++ [if useCompletionsEndpoint P (openai_model settings)
                 then CompletionsCreate (openAiApiKey settings) (completion_request settings prompt)
                 else ChatCreate (openAiApiKey settings) (chat_request settings prompt)].
Proof.
  intros saved. split; [reflexivity|].
  assert (K : client_key settings saved = openAiApiKey settings).
  { unfold saved, saveSettings, bind, await, refreshClient, client_key.
    cbn [snd openaiClient]. now destruct (openaiClient w). }
  split; [exact K|].
  destruct (callOpenAI_log P settings prompt saved) as (L & _). cbv zeta in L.
  rewrite K in L. exact L.
Qed.

(** X26.  When saving fails the handle is not refreshed: the next OpenAI call
    still goes out with the key the handle held, not with the key of the
    settings. *)
Theorem failed_save_keeps_old_key
    (P : Platform) (settings : TitleGeneratorSettings) (prompt : str)
    (err : js_error) (old : str) (w : World) :
  openaiClient w = Some old ->
  saveSettings (Throw err) settings w = (Throw err, w)
  /\ log (snd (callOpenAI P settings prompt w)) =
       log w ++ [if useCompletionsEndpoint P (openai_model settings)
                 then CompletionsCreate old (completion_request settings prompt)
                 else ChatCreate old (chat_request settings prompt)].
Proof.
  intros H. split; [reflexivity|].
  destruct (callOpenAI_log P settings prompt w) as (L & _). cbv zeta in L.
  unfold client_key in L. rewrite H in L. exact L.
Qed.

Lemma preset_cases (key : str) (preset : Preset) :
  preset_of PROMPT_PRESETS key = Some preset ->
  In preset [PRESET_kebab; PRESET_titlecase; PRESET_camel; PRESET_spacesLower; PRESET_ticket].
Proof.
  unfold PROMPT_PRESETS. cbn [preset_of].
  repeat (destruct (str_eqb _ key); [intros [= <-]; simpl; tauto|]).
  discriminate.
Qed.

Lemma one_placeholder_template (T content : str) (a b : str) :
  segments T = [a; b] ->
  no_dollar content = true ->
  replace_placeholder T content = a ++ content ++ b
  /\ contains_placeholder a = false /\ contains_placeholder b = false.
Proof.
  intros Es Hc.
  destruct (replace_placeholder_verbatim T content Hc) as [E _].
  pose proof (segments_clean T) as F. rewrite Es in *.
  inversion F as [|? ? Fa F']; subst. inversion F' as [|? ? Fb _]; subst.
  split; [exact E | split; assumption].
Qed.

(** X27.  Whichever preset is loaded into the custom prompt, and also after the
    default is restored, the template has one placeholder: the rendered
    prompt is the text before it, the note content and the text behind it,
    and neither text holds a placeholder. *)
Theorem usePreset_injects_content
    (settings : TitleGeneratorSettings) (presetKey content : str) :
  preset_of PROMPT_PRESETS presetKey <> None ->
  no_dollar content = true ->
  (exists before behind,
     renderPrompt (usePreset presetKey settings) content = before ++ content ++ behind
     /\ contains_placeholder before = false /\ contains_placeholder behind = false)
  /\ (exists before behind,
        renderPrompt (restoreDefault settings) content = before ++ content ++ behind
        /\ contains_placeholder before = false /\ contains_placeholder behind = false).
Proof.
  intros Hk Hc. split.
  - unfold usePreset. destruct (preset_of PROMPT_PRESETS presetKey) as [preset|] eqn:E;
      [|congruence].
    apply preset_cases in E. unfold renderPrompt, prompt_template.
    cbn [customPrompt with_customPrompt].
    simpl in E. destruct E as [<-|[<-|[<-|[<-|[<-|[]]]]]];
      match goal with
      | |- context [replace_placeholder ?T content] =>
          let T' := eval vm_compute in T in
          change T with T';
          let segs := eval vm_compute in (segments T') in
          match segs with
          | [?a; ?b] =>
              exists a, b;
              apply (one_placeholder_template T' content a b); [vm_compute; reflexivity | exact Hc]
          end
      end.
  - unfold restoreDefault, renderPrompt, prompt_template.
    cbn [customPrompt with_customPrompt]. rewrite trim_DEFAULT_PROMPT.
    match goal with
    | |- context [replace_placeholder ?T content] =>
        let segs := eval vm_compute in (segments T) in
        match segs with
        | [?a; ?b] =>
            exists a, b;
            apply (one_placeholder_template T content a b); [vm_compute; reflexivity | exact Hc]
        end
    end.
Qed.

(** * The further theorems at sample inputs *)

Lemma callFireworks_failed_request_witness :
  callFireworks unavailable_platform fireworks_settings (js "Name this note.") empty_world =
    (Throw (Error (js "Fireworks API error 503: ")),
     {| log := [Fetch (fireworks_request (fireworksModel fireworks_settings)
                         (fireworksApiKey fireworks_settings) (js "Name this note."))];
        statusBar := []; openaiClient := None |}).
Proof.
  destruct (callFireworks_failed_request unavailable_platform fireworks_settings
              (js "Name this note.") empty_world) as [_ B].
  - vm_compute. discriminate.
  - vm_compute. discriminate.
  - exact (B unavailable_response eq_refl eq_refl).
Defined.

Lemma generateTitle_empty_answer_witness :
  notices (log (snd (generateTitle blank_answer_platform openai_settings old_name
                       (js "Some notes.") empty_world))) =
    [notice_text blank_answer_platform EMPTY_TITLE]
  /\ renames (log (snd (generateTitle blank_answer_platform openai_settings old_name
                          (js "Some notes.") empty_world))) = [].
Proof.
  rewrite (generateTitle_empty_answer blank_answer_platform openai_settings old_name
             (js "Some notes.") [] empty_world
             (snd (complete blank_answer_platform openai_settings
                     (renderPrompt openai_settings (js "Some notes."))
                     (indicator_shown empty_world)))).
  - split; reflexivity.
  - vm_compute. reflexivity.
  - reflexivity.
Defined.

Lemma generateTitle_renames_silently_witness :
  notices (log (snd (generateTitle sample_platform openai_settings old_name
                       (js "Some notes.") empty_world))) = []
  /\ renames (log (snd (generateTitle sample_platform openai_settings old_name
                          (js "Some notes.") empty_world))) =
       [(old_name, rename_target sample_platform old_name (sanitize sample_title))].
Proof.
  rewrite (generateTitle_renames_silently sample_platform openai_settings old_name
             (js "Some notes.") sample_title empty_world
             (snd (complete sample_platform openai_settings
                     (renderPrompt openai_settings (js "Some notes."))
                     (indicator_shown empty_world)))).
  - split; reflexivity.
  - vm_compute. reflexivity.
  - vm_compute. discriminate.
  - reflexivity.
Defined.

Lemma generateTitle_rename_refused_witness :
  notices (log (snd (generateTitle failing_rename_platform openai_settings old_name
                       (js "Some notes.") empty_world))) =
    [notice_text failing_rename_platform name_taken].
Proof.
  rewrite (generateTitle_rename_refused failing_rename_platform openai_settings old_name
             (js "Some notes.") sample_title empty_world
             (snd (complete failing_rename_platform openai_settings
                     (renderPrompt openai_settings (js "Some notes."))
                     (indicator_shown empty_world)))
             name_taken).
  - reflexivity.
  - vm_compute. reflexivity.
  - vm_compute. discriminate.
  - reflexivity.
Defined.

Lemma generateTitle_provider_failure_witness :
  log (snd (generateTitle unavailable_platform openai_settings old_name
              (js "Some notes.") empty_world)) =
    [ChatCreate (js "sk-key") (chat_request openai_settings
                                 (renderPrompt openai_settings (js "Some notes.")));
     ConsoleError out_of_service;
     Notice (notice_text unavailable_platform out_of_service)].
Proof.
  rewrite (generateTitle_provider_failure unavailable_platform openai_settings old_name
             (js "Some notes.") empty_world
             (snd (complete unavailable_platform openai_settings
                     (renderPrompt openai_settings (js "Some notes."))
                     (indicator_shown empty_world)))
             out_of_service).
  - reflexivity.
  - vm_compute. reflexivity.
Defined.

Lemma generateTitle_fireworks_not_configured_witness :
  generateTitle sample_platform (with_provider fireworks DEFAULT_SETTINGS) old_name
    (js "Some notes.") empty_world =
    (Return tt,
     {| log := [ConsoleError (Error (js "Fireworks model is required."));
                Notice (notice_text sample_platform
                          (Error (js "Fireworks model is required.")))];
        statusBar := [];
        openaiClient := None |}).
Proof.
  apply (generateTitle_fireworks_not_configured sample_platform
           (with_provider fireworks DEFAULT_SETTINGS) old_name (js "Some notes.") empty_world).
  - reflexivity.
  - left. reflexivity.
Defined.

Lemma blank_key_entry_is_missing_witness :
  generateTitle sample_platform (with_openAiApiKey (js "   ") openai_settings) old_name
    (js "Some notes.") empty_world =
    (Return tt,
     {| log := [ConsoleError MISSING_KEY; Notice (notice_text sample_platform MISSING_KEY)];
        statusBar := [];
        openaiClient := None |}).
Proof.
  apply (blank_key_entry_is_missing sample_platform openai_settings (js "   ") old_name
           (js "Some notes.") empty_world); reflexivity.
Defined.

Lemma generateTitles_quiet_witness :
  statusBar (snd (pMap [gone; kept] (generateTitleFromFile sample_platform DEFAULT_SETTINGS)
                    empty_world)) = []
  /\ exists shown,
       notices (log (snd (pMap [gone; kept]
                            (generateTitleFromFile sample_platform DEFAULT_SETTINGS)
                            empty_world))) = shown
       /\ (length shown <= 2)%nat.
Proof.
  destruct (generateTitles_quiet sample_platform DEFAULT_SETTINGS [gone; kept] empty_world)
    as (A & shown & B & C).
  - intros history file _. now exists (js "Some notes.").
  - split; [exact A|]. exists shown. split; [exact B | exact C].
Defined.

Lemma failed_save_keeps_old_key_witness :
  saveSettings (Throw name_taken) openai_settings world_with_old_key =
    (Throw name_taken, world_with_old_key)
  /\ log (snd (callOpenAI sample_platform openai_settings (js "Name this note.")
                 world_with_old_key)) =
       [ChatCreate (js "sk-old") (chat_request openai_settings (js "Name this note."))].
Proof.
  destruct (failed_save_keeps_old_key sample_platform openai_settings (js "Name this note.")
              name_taken (js "sk-old") world_with_old_key eq_refl) as [A B].
  split; [exact A | exact B].
Defined.

Lemma usePreset_injects_content_witness :
  exists before behind,
    renderPrompt (usePreset (js "kebab") DEFAULT_SETTINGS) (js "Some notes.") =
      before ++ js "Some notes." ++ behind
    /\ contains_placeholder before = false /\ contains_placeholder behind = false.
Proof.
  destruct (usePreset_injects_content DEFAULT_SETTINGS (js "kebab") (js "Some notes."))
    as [A _].
  - vm_compute. discriminate.
  - reflexivity.
  - exact A.
Defined.
